(** * DNA sequence compression: a shallow embedding of [dna_compressor.py]

    The development follows the Python source function by function.

    - A Python [str] is a list of characters ([list ascii]); a character
      stands for a code point below 256.  Text outside that range is not
      represented.
    - A [bytes] object is a [list byte].
    - The frequency table of [ContextModel] is a [gmap] from context
      strings to count rows; a row is the [np.ones(4, dtype=np.uint32)]
      array, kept as a list of [N] with the 32-bit wrap-around of
      [counts[i] += 1] written out.
    - [counts / total_count] is IEEE binary64 division, modelled with
      Rocq's primitive floats.
    - The entropy coder ([constriction.stream.stack.AnsCoder]) is an
      external library.  It enters as the interface [AnsCoder]; the laws a
      stack coder obeys are the class [AnsCoderLaws].
    - [np.ndarray.tobytes] and [np.frombuffer] use the byte order of the
      host ([sys.byteorder]), a parameter of the container functions.
    - Files live in a store [fs : gmap string node]; the two entry points
      are computations in a state-and-exception monad over that store.
      Text files are read and written as UTF-8 with universal newlines on
      input and ["\n"] on output.  [print] calls are not modelled. *)

From Stdlib Require Import PrimFloat Uint63 ZArith NArith Ascii String.
From Stdlib Require Strings.Byte.
From stdpp Require Import gmap strings list fin_maps.

Local Open Scope N_scope.

(** ** Python values *)

Abbreviation str := (list ascii).

Definition str_of (s : string) : str := list_ascii_of_string s.

(** The exceptions the two entry points can raise. *)
Inductive exn :=
  | FileNotFoundError
  | PermissionError
  | OverflowError
  | ValueError
  | UnicodeDecodeError
  | KeyError
  | IndexError
  | CoderError.

(** How a call ends: it returns, an exception propagates to the caller, or
    [sys.exit(code)] raises [SystemExit], which is not an [Exception] and
    ends the process unless a caller traps [BaseException]. *)
Inductive outcome (A : Type) :=
  | Ok (a : A)
  | Raise (e : exn)
  | Exit (code : Z).
Arguments Ok {A} a.
Arguments Raise {A} e.
Arguments Exit {A} code.

(** ** Module constants *)

Definition CONTEXT_LENGTH : nat := 10.
Definition DNA_ALPHABET : str := str_of "ACGT".

(** [BASE_TO_INDEX[base]]: [None] is [KeyError]. *)
Fixpoint index_of (c : ascii) (l : str) (i : N) : option N :=
  match l with
  | [] => None
  | x :: l' => if decide (x = c) then Some i else index_of c l' (N.succ i)
  end.

Definition BASE_TO_INDEX (base : ascii) : option N := index_of base DNA_ALPHABET 0.

(** [INDEX_TO_BASE[i]]: [None] is [KeyError]. *)
Definition INDEX_TO_BASE (i : N) : option ascii := DNA_ALPHABET !! N.to_nat i.

(** ** ContextModel *)

Definition UINT32_MOD : N := 2 ^ 32.

Record ContextModel := mkContextModel {
  context_length : nat;
  alphabet_size : nat;
  model : gmap str (list N)
}.

(** [ContextModel(context_length, alphabet_size)] *)
Definition ContextModel_init (context_length alphabet_size : nat) : ContextModel :=
  mkContextModel context_length alphabet_size ∅.

Definition with_model (cm : ContextModel) (m : gmap str (list N)) : ContextModel :=
  mkContextModel (context_length cm) (alphabet_size cm) m.

(** [_get_or_create_context]: the row of [context], created as all ones
    on first access.  The row returned is the one stored in the table. *)
Definition _get_or_create_context (cm : ContextModel) (context : str)
  : list N * ContextModel :=
  match model cm !! context with
  | Some counts => (counts, cm)
  | None =>
      let counts := replicate (alphabet_size cm) 1 in
      (counts, with_model cm (<[context := counts]> (model cm)))
  end.

(** [update]: [counts[symbol_index] += 1] on the stored row.  The cell is
    a [uint32] and wraps; an index past the row is [IndexError]. *)
Definition update (cm : ContextModel) (context : str) (symbol_index : N)
  : outcome ContextModel :=
  let '(counts, cm1) := _get_or_create_context cm context in
  match counts !! N.to_nat symbol_index with
  | None => Raise IndexError
  | Some c =>
      let counts' := <[N.to_nat symbol_index := (c + 1) mod UINT32_MOD]> counts in
      Ok (with_model cm1 (<[context := counts']> (model cm1)))
  end.

(** The conversion of an integer below [2^53] to binary64, which is exact. *)
Definition to_float (n : N) : float := PrimFloat.of_uint63 (Uint63.of_Z (Z.of_N n)).

(** [counts / np.sum(counts)] for one row.  The sum is taken without
    wrap-around, as NumPy does where its default unsigned integer has 64
    bits; the division is the IEEE binary64 one. *)
Definition probabilities_of (counts : list N) : list float :=
  let total_count := foldr N.add 0 counts in
  (fun c => PrimFloat.div (to_float c) (to_float total_count)) <$> counts.

(** [get_probabilities] *)
Definition get_probabilities (cm : ContextModel) (context : str)
  : list float * ContextModel :=
  let '(counts, cm1) := _get_or_create_context cm context in
  (probabilities_of counts, cm1).

(** ** Bytes and integers *)

Abbreviation byte := Init.Byte.byte.

Definition byte_of_N (n : N) : byte := byte_of_ascii (ascii_of_N n).
Definition N_of_byte (b : byte) : N := N_of_ascii (ascii_of_byte b).

Inductive endian := little | big.

(** The [len] low base-256 digits of [n], least significant first. *)
Fixpoint le_digits (len : nat) (n : N) : list byte :=
  match len with
  | O => []
  | S k => byte_of_N (n mod 256) :: le_digits k (n / 256)
  end.

(** [n.to_bytes(len, order)]; a value that does not fit is
    [OverflowError]. *)
Definition to_bytes (len : nat) (order : endian) (n : N) : outcome (list byte) :=
  if n <? 256 ^ N.of_nat len
  then Ok (match order with
           | little => le_digits len n
           | big => rev (le_digits len n)
           end)
  else Raise OverflowError.

(** [int.from_bytes(bs, order)], of any number of bytes. *)
Definition from_bytes (order : endian) (bs : list byte) : N :=
  foldr (fun b acc => N_of_byte b + 256 * acc) 0
        (match order with little => bs | big => rev bs end).

(** The four bytes of one [uint32] word in memory. *)
Definition word_bytes (byteorder : endian) (w : N) : list byte :=
  match byteorder with
  | little => le_digits 4 w
  | big => rev (le_digits 4 w)
  end.

(** [np.array(words, dtype=np.uint32).tobytes()] *)
Definition tobytes (byteorder : endian) (words : list N) : list byte :=
  words ≫= word_bytes byteorder.

(** [np.frombuffer(bs, dtype=np.uint32)]: a buffer that is not a whole
    number of words is [ValueError]. *)
Fixpoint words_of (byteorder : endian) (n : nat) (bs : list byte) : list N :=
  match n with
  | O => []
  | S k => from_bytes byteorder (take 4 bs) :: words_of byteorder k (drop 4 bs)
  end.

Definition frombuffer (byteorder : endian) (bs : list byte) : outcome (list N) :=
  if decide (length bs `mod` 4 = 0)%nat
  then Ok (words_of byteorder (length bs / 4)%nat bs)
  else Raise ValueError.

(** ** Text *)

Definition LF : ascii := "010"%char.
Definition CR : ascii := "013"%char.

(** [s.encode('utf-8')] for code points below 256. *)
Definition utf8_encode (s : str) : list byte :=
  s ≫= (fun c =>
    let n := N_of_ascii c in
    if n <? 128 then [byte_of_N n]
    else [byte_of_N (192 + n / 64); byte_of_N (128 + n mod 64)]).

(** [bs.decode('utf-8')]: [None] is [UnicodeDecodeError].  Sequences that
    decode to code points from 256 on have no [str] here and are reported
    the same way. *)
Fixpoint utf8_decode (bs : list byte) : option str :=
  match bs with
  | [] => Some []
  | b :: rest =>
      let n := N_of_byte b in
      if n <? 128 then cons (ascii_of_N n) <$> utf8_decode rest
      else if (n =? 194) || (n =? 195) then
        match rest with
        | b2 :: rest' =>
            let m := N_of_byte b2 in
            if (128 <=? m) && (m <? 192)
            then cons (ascii_of_N ((n - 192) * 64 + (m - 128))) <$> utf8_decode rest'
            else None
        | [] => None
        end
      else None
  end.

(** Universal newlines of text-mode input: ["\r\n"] and ["\r"] become
    ["\n"]. *)
Fixpoint universal_newlines (s : str) : str :=
  match s with
  | [] => []
  | c :: rest =>
      if decide (c = CR)
      then LF :: match rest with
                 | c2 :: rest' =>
                     if decide (c2 = LF) then universal_newlines rest'
                     else universal_newlines rest
                 | [] => []
                 end
      else c :: universal_newlines rest
  end.

(** [for line in f]: the lines of a text, each with its ["\n"]. *)
Fixpoint readlines (s : str) : list str :=
  match s with
  | [] => []
  | c :: rest =>
      if decide (c = LF) then [LF] :: readlines rest
      else match readlines rest with
           | [] => [[c]]
           | l :: ls => (c :: l) :: ls
           end
  end.

(** [str.isspace] on code points below 256. *)
Definition is_space (c : ascii) : bool :=
  let n := N_of_ascii c in
  ((9 <=? n) && (n <=? 13)) || ((28 <=? n) && (n <=? 32)) || (n =? 133) || (n =? 160).

Fixpoint lstrip (s : str) : str :=
  match s with
  | c :: rest => if is_space c then lstrip rest else s
  | [] => []
  end.

(** [s.strip()] *)
Definition strip (s : str) : str := reverse (lstrip (reverse (lstrip s))).

(** [s.upper()]; only [a]..[z] change: the upper-case forms of the other
    code points below 256 are not letters of the alphabet. *)
Definition upper_char (c : ascii) : ascii :=
  let n := N_of_ascii c in
  if (97 <=? n) && (n <=? 122) then ascii_of_N (n - 32) else c.

Definition upper (s : str) : str := upper_char <$> s.

(** [line.startswith('>')] *)
Definition startswith_gt (line : str) : bool :=
  match line with
  | c :: _ => bool_decide (c = ">"%char)
  | [] => false
  end.

(** ** The file store and its monad *)

Inductive node :=
  | File (data : list byte)
  | NoAccess.

Abbreviation fs := (gmap string node).

Definition M (A : Type) : Type := fs -> outcome A * fs.

Definition ret {A} (a : A) : M A := fun σ => (Ok a, σ).

Definition bind {A B} (m : M A) (k : A -> M B) : M B :=
  fun σ => match m σ with
           | (Ok a, σ') => k a σ'
           | (Raise e, σ') => (Raise e, σ')
           | (Exit c, σ') => (Exit c, σ')
           end.

Definition lift {A} (o : outcome A) : M A := fun σ => (o, σ).

Definition of_option {A} (e : exn) (o : option A) : outcome A :=
  match o with Some a => Ok a | None => Raise e end.

Notation "x <- m ;; k" := (bind m (fun x => k))
  (at level 100, m at next level, right associativity, only parsing).
Notation "m ;;; k" := (bind m (fun _ => k))
  (at level 100, right associativity, only parsing).

(** [open(path, 'rb')] followed by reading the whole file. *)
Definition open_read (path : string) : M (list byte) :=
  fun σ => match σ !! path with
           | None => (Raise FileNotFoundError, σ)
           | Some NoAccess => (Raise PermissionError, σ)
           | Some (File data) => (Ok data, σ)
           end.

(** [open(path, 'r')] followed by reading the whole text. *)
Definition open_read_text (path : string) : M str :=
  data <- open_read path ;;
  s <- lift (of_option UnicodeDecodeError (utf8_decode data)) ;;
  ret (universal_newlines s).

(** [open(path, 'wb')] and [open(path, 'w')]: the file is created or
    emptied. *)
Definition open_write (path : string) : M unit :=
  fun σ => match σ !! path with
           | Some NoAccess => (Raise PermissionError, σ)
           | _ => (Ok (), <[path := File []]> σ)
           end.

(** [f.write(data)] on a file opened for writing. *)
Definition write (path : string) (data : list byte) : M unit :=
  fun σ => match σ !! path with
           | Some (File old) => (Ok (), <[path := File (old ++ data)]> σ)
           | _ => (Raise ValueError, σ)
           end.

(** [try: ... except FileNotFoundError: print(...); sys.exit(1)] *)
Definition except_FileNotFoundError_exit {A} (m : M A) : M A :=
  fun σ => match m σ with
           | (Raise FileNotFoundError, σ') => (Exit 1, σ')
           | r => r
           end.

(** ** read_fasta_sequence_and_header *)

(** What the generator yields: [("HEADER", header)] or [("BASE", char)]. *)
Inductive item :=
  | HEADER (header : str)
  | BASE (base : ascii).

(** The first loop: it reads lines up to and including the first one that
    starts with [>], yields the header, and leaves the rest of the lines in
    the file iterator. *)
Fixpoint header_search (lines : list str) : list item * list str :=
  match lines with
  | [] => ([], [])
  | line :: rest =>
      if startswith_gt line then ([HEADER (strip line)], rest)
      else header_search rest
  end.

(** The second loop, over the lines the first loop left. *)
Definition sequence_lines (lines : list str) : list item :=
  lines ≫= (fun line =>
    if startswith_gt line then []
    else BASE <$> filter (fun c => is_Some (BASE_TO_INDEX c)) (upper (strip line))).

Definition read_fasta_sequence_and_header (filepath : string) : M (list item) :=
  except_FileNotFoundError_exit (
    text <- open_read_text filepath ;;
    let '(yielded, rest) := header_search (readlines text) in
    ret (yielded ++ sequence_lines rest)).

(** ** The entropy coder interface

    [constriction.stream.stack.AnsCoder] with the calls the source makes.
    [Categorical(probabilities)] is built inside [encode_reverse] and
    [decode]; [None] stands for an exception of the library. *)
Class AnsCoder := {
  coder : Type;
  (** [AnsCoder()] *)
  coder_new : coder;
  (** [AnsCoder(compressed_data)] *)
  coder_from_compressed : list N -> option coder;
  (** [encoder.encode_reverse(np.array([symbol_index]), Categorical(probabilities))] *)
  encode_reverse : coder -> N -> list float -> option coder;
  (** [encoder.get_compressed()], an array of [uint32] words *)
  get_compressed : coder -> list N;
  (** [decoder.decode(Categorical(probabilities), 1)[0]] *)
  decode : coder -> list float -> option (N * coder)
}.

(** What a stack coder promises: the words are 32-bit, a coder rebuilt
    from its words is the coder that wrote them, a symbol can be pushed
    under the distribution of a row of the alphabet with positive counts,
    and popping under the same distribution returns the symbol pushed last
    and the coder before the push. *)
Class AnsCoderLaws (C : AnsCoder) := {
  get_compressed_uint32 :
    forall (c : coder) (w : N), w ∈ get_compressed c -> w < UINT32_MOD;
  from_get_compressed :
    forall c : coder, coder_from_compressed (get_compressed c) = Some c;
  encode_reverse_defined :
    forall (c : coder) (s : N) (counts : list N),
      length counts = length DNA_ALPHABET ->
      Forall (fun n => 1 <= n < UINT32_MOD) counts ->
      (N.to_nat s < length counts)%nat ->
      is_Some (encode_reverse c s (probabilities_of counts));
  decode_encode_reverse :
    forall (c c' : coder) (s : N) (p : list float),
      encode_reverse c s p = Some c' -> decode c' p = Some (s, c)
}.

(** [deque(maxlen=...)].append: a full deque drops its oldest element. *)
Definition deque_append (maxlen : nat) (q : list ascii) (x : ascii) : list ascii :=
  drop (length (q ++ [x]) - maxlen)%nat (q ++ [x]).

(** ["".join(context_queue)]: the queue holds one-character strings. *)
Definition join (q : list ascii) : str := q.

(** [range(0, stop, step)] *)
Definition range0 (stop step : nat) : list nat :=
  (fun k => k * step)%nat <$> seq 0 ((stop + step - 1) / step)%nat.

(** [s[i:i+n]] *)
Definition slice (s : str) (i n : nat) : str := take n (drop i s).

Section Compressor.

Context `{AnsCoder}.
(** [sys.byteorder] *)
Variable byteorder : endian.

(** *** compress_file *)

(** The loop that gathers [header] and [sequence] from the generator. *)
Fixpoint collect (items : list item) (header : str) (sequence : list ascii)
  : str * list ascii :=
  match items with
  | [] => (header, sequence)
  | HEADER data :: rest => collect rest data sequence
  | BASE data :: rest => collect rest header (sequence ++ [data])
  end.

(** Pass 1: one iteration per base, in document order. *)
Fixpoint pass1 (sequence : list ascii) (cm : ContextModel)
    (context_queue : list ascii) (states_to_encode : list (N * list float))
  : outcome (ContextModel * list ascii * list (N * list float)) :=
  match sequence with
  | [] => Ok (cm, context_queue, states_to_encode)
  | base :: rest =>
      let context_str := join context_queue in
      let '(probabilities, cm1) := get_probabilities cm context_str in
      match BASE_TO_INDEX base with
      | None => Raise KeyError
      | Some symbol_index =>
          match update cm1 context_str symbol_index with
          | Ok cm2 =>
              pass1 rest cm2 (deque_append CONTEXT_LENGTH context_queue base)
                    (states_to_encode ++ [(symbol_index, probabilities)])
          | Raise e => Raise e
          | Exit c => Exit c
          end
      end
  end.

(** Pass 2 over [reversed(states_to_encode)]. *)
Fixpoint encode_states (states : list (N * list float)) (encoder : coder)
  : outcome coder :=
  match states with
  | [] => Ok encoder
  | (symbol_index, probabilities) :: rest =>
      match encode_reverse encoder symbol_index probabilities with
      | Some encoder' => encode_states rest encoder'
      | None => Raise CoderError
      end
  end.

Definition pass2 (states_to_encode : list (N * list float)) : outcome (list N) :=
  match encode_states (rev states_to_encode) coder_new with
  | Ok encoder => Ok (get_compressed encoder)
  | Raise e => Raise e
  | Exit c => Exit c
  end.

Definition compress_file (input_path output_path : string) : M unit :=
  items <- read_fasta_sequence_and_header input_path ;;
  let '(header, sequence) := collect items [] [] in
  let seq_len := length sequence in
  if decide (seq_len = 0%nat) then
    open_write output_path ;;;
    write output_path (replicate 8 Byte.x00)
  else
    let cm := ContextModel_init CONTEXT_LENGTH (length DNA_ALPHABET) in
    let context_queue := replicate CONTEXT_LENGTH "N"%char in
    st <- lift (pass1 sequence cm context_queue []) ;;
    compressed_data <- lift (pass2 st.2) ;;
    let header_bytes := utf8_encode header in
    open_write output_path ;;;
    b8 <- lift (to_bytes 8 big (N.of_nat seq_len)) ;;
    write output_path b8 ;;;
    b2 <- lift (to_bytes 2 big (N.of_nat (length header_bytes))) ;;
    write output_path b2 ;;;
    write output_path header_bytes ;;;
    write output_path (tobytes byteorder compressed_data).

(** *** decompress_file *)

(** The decode loop, [n] iterations. *)
Fixpoint decode_loop (n : nat) (cm : ContextModel) (decoder : coder)
    (context_queue : list ascii) (decoded_sequence : list ascii)
  : outcome (ContextModel * coder * list ascii * list ascii) :=
  match n with
  | O => Ok (cm, decoder, context_queue, decoded_sequence)
  | S k =>
      let context_str := join context_queue in
      let '(probabilities, cm1) := get_probabilities cm context_str in
      match decode decoder probabilities with
      | None => Raise CoderError
      | Some (symbol_index, decoder') =>
          match update cm1 context_str symbol_index with
          | Ok cm2 =>
              match INDEX_TO_BASE symbol_index with
              | None => Raise KeyError
              | Some base =>
                  decode_loop k cm2 decoder'
                    (deque_append CONTEXT_LENGTH context_queue base)
                    (decoded_sequence ++ [base])
              end
          | Raise e => Raise e
          | Exit c => Exit c
          end
      end
  end.

(** The text written for a non-empty sequence. *)
Definition render (header : str) (restored_sequence : str) : list str :=
  (header ++ [LF]) ::
  ((fun i => slice restored_sequence i 70 ++ [LF]) <$> range0 (length restored_sequence) 70).

Fixpoint write_all (path : string) (chunks : list str) : M unit :=
  match chunks with
  | [] => ret ()
  | s :: rest => write path (utf8_encode s) ;;; write_all path rest
  end.

(** The fields read inside the [try] block. *)
Definition read_container (input_path : string) : M (N * str * list N) :=
  except_FileNotFoundError_exit (
    data <- open_read input_path ;;
    let seq_len := from_bytes big (take 8 data) in
    let header_len := from_bytes big (take 2 (drop 8 data)) in
    header <- lift (of_option UnicodeDecodeError
                 (utf8_decode (take (N.to_nat header_len) (drop 10 data)))) ;;
    compressed_data <- lift (frombuffer byteorder (drop (10 + N.to_nat header_len) data)) ;;
    ret (seq_len, header, compressed_data)).

Definition decompress_file (input_path output_path : string) : M unit :=
  c <- read_container input_path ;;
  let '(seq_len, header, compressed_data) := c in
  if decide (seq_len = 0) then
    open_write output_path ;;;
    write output_path (utf8_encode header)
  else
    let cm := ContextModel_init CONTEXT_LENGTH (length DNA_ALPHABET) in
    decoder <- lift (of_option CoderError (coder_from_compressed compressed_data)) ;;
    let context_queue := replicate CONTEXT_LENGTH "N"%char in
    st <- lift (decode_loop (N.to_nat seq_len) cm decoder context_queue []) ;;
    let restored_sequence := st.2 in
    open_write output_path ;;;
    write_all output_path (render header restored_sequence).

End Compressor.

(** ** eval.py: get_dna_payload

    The integrity check of the repository reads the bases of a FASTA file
    from every line that does not start with [>]. *)
Definition get_dna_payload (filepath : string) : M (option str) :=
  fun σ =>
    match open_read_text filepath σ with
    | (Ok text, σ') =>
        (Ok (Some (readlines text ≫= (fun line =>
                 if startswith_gt line then []
                 else filter (fun c => c ∈ str_of "ACGT") (upper (strip line))))), σ')
    | (Raise _, σ') => (Ok None, σ')
    | (Exit c, σ') => (Exit c, σ')
    end.

(** ** A reference stack coder

    The simplest coder with the stack discipline: one word per symbol, the
    distribution is only used to bound the symbol.  Like the state machine
    of an ANS coder, it keeps decoding when its stack is exhausted. *)
Module StackCoder.

Inductive sym := S0 | S1 | S2 | S3.

Definition to_N (s : sym) : N :=
  match s with S0 => 0 | S1 => 1 | S2 => 2 | S3 => 3 end.

Definition of_N (n : N) : option sym :=
  match n with
  | 0 => Some S0 | 1 => Some S1 | 2 => Some S2 | 3 => Some S3
  | _ => None
  end.

Definition push (c : list sym) (s : N) (p : list float) : option (list sym) :=
  if decide (N.to_nat s < length p)%nat
  then (fun x => x :: c) <$> of_N s
  else None.

Definition pop (c : list sym) (p : list float) : option (N * list sym) :=
  match c with
  | s :: c' => Some (to_N s, c')
  | [] => Some (0, [])
  end.

#[export] Instance stack_coder : AnsCoder := {|
  coder := list sym;
  coder_new := [];
  coder_from_compressed := fun ws => mapM of_N (rev ws);
  encode_reverse := push;
  get_compressed := fun c => to_N <$> rev c;
  decode := pop
|}.

End StackCoder.

(** ** Calls on the frequency table *)

(** One call on a [ContextModel]. *)
Inductive model_op :=
  | GetProbabilities (context : str)
  | Update (context : str) (symbol_index : N).

Definition apply_op (cm : ContextModel) (op : model_op) : outcome ContextModel :=
  match op with
  | GetProbabilities context => Ok (get_probabilities cm context).2
  | Update context symbol_index => update cm context symbol_index
  end.

(** A sequence of calls; an exception ends it. *)
Fixpoint run_ops (ops : list model_op) (cm : ContextModel) : outcome ContextModel :=
  match ops with
  | [] => Ok cm
  | op :: rest =>
      match apply_op cm op with
      | Ok cm' => run_ops rest cm'
      | Raise e => Raise e
      | Exit c => Exit c
      end
  end.

(** ** Predicates of the statements *)

(** Every count of every row is at least 1. *)
Definition counts_positive (cm : ContextModel) : Prop :=
  forall context row, model cm !! context = Some row -> Forall (fun c => 1 <= c) row.

(** Every row of [cm1] is still a row of [cm2], with no smaller count. *)
Definition table_grows (cm1 cm2 : ContextModel) : Prop :=
  forall context row, model cm1 !! context = Some row ->
    exists row', model cm2 !! context = Some row' /\ Forall2 N.le row row'.

(** The rows hold counts between 1 and [1 + j]: the state after [j] calls
    on a fresh model. *)
Definition counts_within (j : N) (cm : ContextModel) : Prop :=
  forall context row, model cm !! context = Some row ->
    Forall (fun c => 1 <= c <= 1 + j) row.

(** The sequence lines of the output: [s[i:i+70]] for [i] in
    [range(0, len(s), 70)]. *)
Definition wrapped_lines (s : str) : list str :=
  (fun i => slice s i 70) <$> range0 (length s) 70.

(** A character of a wrapped sequence: a newline or a letter of the
    alphabet. *)
Definition base_or_LF (c : ascii) : Prop := c = LF \/ c ∈ DNA_ALPHABET.

(** Every row has one count per letter of the alphabet. *)
Definition rows_wf (cm : ContextModel) : Prop :=
  alphabet_size cm = length DNA_ALPHABET /\
  forall context row, model cm !! context = Some row -> length row = length DNA_ALPHABET.

(** ** The compression summary *)

(** [compressed_size_bytes = len(compressed_data) * 4 + 10 + len(header_bytes)] *)
Definition compressed_size_bytes (compressed_data : list N) (header_bytes : list byte) : nat :=
  (length compressed_data * 4 + 10 + length header_bytes)%nat.

(** A computation changes the store at [path] only. *)
Definition touches_only {A} (path : string) (m : M A) : Prop :=
  forall (σ σ' : fs) (r : outcome A), m σ = (r, σ') ->
    forall p, p ≠ path -> σ' !! p = σ !! p.

(** ** The updates of pass 1 *)

(** The calls [model.update(context_str, symbol_index)] of pass 1, in
    order, as pairs of a context and a symbol index, up to the first
    symbol that is not in [BASE_TO_INDEX] (where pass 1 raises). *)
Fixpoint visits (sequence : list ascii) (context_queue : list ascii) : list (str * N) :=
  match sequence with
  | [] => []
  | base :: rest =>
      match BASE_TO_INDEX base with
      | Some symbol_index =>
          (join context_queue, symbol_index)
            :: visits rest (deque_append CONTEXT_LENGTH context_queue base)
      | None => []
      end
  end.

(** How many times symbol [i] followed [context]. *)
Definition followers (v : list (str * N)) (context : str) (i : N) : N :=
  N.of_nat (length (filter (fun x => x = (context, i)) v)).

(** A row after the updates [v] of its context. *)
Definition bump (v : list (str * N)) (context : str) (row : list N) : list N :=
  imap (fun k c => (c + followers v context (N.of_nat k)) mod UINT32_MOD) row.

(** * Proofs *)

(** ** The frequency table *)

Section ModelFacts.

Implicit Types (cm : ContextModel) (context : str) (row : list N).

Lemma get_or_create_lookup cm context :
  model (_get_or_create_context cm context).2 !! context
  = Some (_get_or_create_context cm context).1.
Proof.
  unfold _get_or_create_context.
  destruct (model cm !! context) eqn:E; simpl; [done|].
  by rewrite lookup_insert_eq.
Qed.

Lemma get_or_create_other cm context context' :
  context ≠ context' ->
  model (_get_or_create_context cm context).2 !! context' = model cm !! context'.
Proof.
  intros Hne. unfold _get_or_create_context.
  destruct (model cm !! context) eqn:E; simpl; [done|].
  by rewrite lookup_insert_ne.
Qed.

Lemma get_or_create_row cm context :
  (_get_or_create_context cm context).1
  = default (replicate (alphabet_size cm) 1) (model cm !! context).
Proof.
  unfold _get_or_create_context. by destruct (model cm !! context).
Qed.

Lemma get_or_create_alphabet cm context :
  alphabet_size (_get_or_create_context cm context).2 = alphabet_size cm.
Proof.
  unfold _get_or_create_context. by destruct (model cm !! context).
Qed.

(** [update] in terms of lookups. *)
Lemma update_Ok cm context i cm' :
  update cm context i = Ok cm' ->
  exists c, let row := (_get_or_create_context cm context).1 in
    row !! N.to_nat i = Some c /\
    alphabet_size cm' = alphabet_size cm /\
    model cm' !! context = Some (<[N.to_nat i := (c + 1) mod UINT32_MOD]> row) /\
    forall context', context ≠ context' -> model cm' !! context' = model cm !! context'.
Proof.
  unfold update.
  pose proof (get_or_create_other cm context) as Ho.
  pose proof (get_or_create_alphabet cm context) as Ha.
  destruct (_get_or_create_context cm context) as [row cm1]; simpl in *.
  destruct (row !! N.to_nat i) as [c|] eqn:E; [|done].
  intros [= <-]. exists c. simpl. split_and!; [done|done| |].
  - by rewrite lookup_insert_eq.
  - intros c' Hne. rewrite lookup_insert_ne; auto.
Qed.

Lemma counts_within_init k a : counts_within 0 (ContextModel_init k a).
Proof. intros context row. simpl. by rewrite lookup_empty. Qed.

Lemma counts_within_mono j j' cm : j <= j' -> counts_within j cm -> counts_within j' cm.
Proof.
  intros Hle Hw context row Hrow. specialize (Hw _ _ Hrow).
  eapply Forall_impl; [exact Hw|]. simpl. lia.
Qed.

Lemma counts_within_positive j cm : counts_within j cm -> counts_positive cm.
Proof.
  intros Hw context row Hrow. specialize (Hw _ _ Hrow).
  eapply Forall_impl; [exact Hw|]. simpl. lia.
Qed.

Lemma Forall2_le_refl row : Forall2 N.le row row.
Proof.
  apply Forall2_same_length_lookup. split; [done|].
  intros i x y Hx Hy. rewrite Hx in Hy. injection Hy as ->. lia.
Qed.

Lemma table_grows_refl cm : table_grows cm cm.
Proof.
  intros context row Hrow. exists row. split; [done|apply Forall2_le_refl].
Qed.

Lemma table_grows_trans cm1 cm2 cm3 :
  table_grows cm1 cm2 -> table_grows cm2 cm3 -> table_grows cm1 cm3.
Proof.
  intros H12 H23 context row Hrow.
  destruct (H12 _ _ Hrow) as (row2 & Hrow2 & Hle2).
  destruct (H23 _ _ Hrow2) as (row3 & Hrow3 & Hle3).
  exists row3. split; [done|].
  eapply Forall2_trans; [|exact Hle2|exact Hle3].
  intros x y z. simpl. lia.
Qed.

Lemma get_or_create_within j cm context :
  counts_within j cm -> counts_within j (_get_or_create_context cm context).2.
Proof.
  intros Hw context' row. unfold _get_or_create_context.
  destruct (model cm !! context) eqn:E; simpl; [apply Hw|].
  destruct (decide (context = context')) as [<-|Hne].
  - rewrite lookup_insert_eq. intros [= <-].
    apply Forall_replicate. lia.
  - rewrite lookup_insert_ne; [apply Hw|done].
Qed.

Lemma get_or_create_grows cm context :
  table_grows cm (_get_or_create_context cm context).2.
Proof.
  intros context' row Hrow. unfold _get_or_create_context.
  destruct (model cm !! context) eqn:E; simpl.
  - by apply table_grows_refl.
  - rewrite lookup_insert_ne; [|congruence].
    by apply table_grows_refl.
Qed.

Lemma Forall2_le_insert row i c c' :
  row !! i = Some c -> c <= c' -> Forall2 N.le row (<[i := c']> row).
Proof.
  intros Hi Hle. apply Forall2_same_length_lookup. split.
  - by rewrite length_insert.
  - intros k x y Hx Hy. destruct (decide (i = k)) as [<-|Hne].
    + rewrite list_lookup_insert_eq in Hy; [|by eapply lookup_lt_Some].
      congruence.
    + rewrite list_lookup_insert_ne in Hy; [|done]. rewrite Hx in Hy.
      injection Hy as ->. lia.
Qed.

(** One call keeps the bound and never shrinks the table, as long as no
    cell can reach [2^32]. *)
Lemma apply_op_within j cm op cm' :
  j < UINT32_MOD - 2 ->
  counts_within j cm ->
  apply_op cm op = Ok cm' ->
  counts_within (j + 1) cm' /\ table_grows cm cm'.
Proof.
  intros Hj Hw Hop. destruct op as [context|context i]; simpl in Hop.
  - injection Hop as <-. unfold get_probabilities.
    pose proof (get_or_create_within j cm context Hw) as Hw1.
    pose proof (get_or_create_grows cm context) as Hg1.
    destruct (_get_or_create_context cm context) as [row cm1]; simpl in *.
    split; [|done]. eapply counts_within_mono; [|exact Hw1]. lia.
  - apply update_Ok in Hop as (c & Hc & _ & Hsame & Hother). simpl in *.
    pose proof (get_or_create_within j cm context Hw) as Hw1.
    pose proof (get_or_create_lookup cm context) as Hl1.
    assert (Hrow : Forall (fun c => 1 <= c <= 1 + j) (_get_or_create_context cm context).1)
      by (eapply Hw1; exact Hl1).
    assert (Hcb : 1 <= c <= 1 + j).
    { rewrite Forall_lookup in Hrow. by eapply Hrow. }
    assert (Hmod : (c + 1) mod UINT32_MOD = c + 1).
    { apply N.mod_small. unfold UINT32_MOD in *. lia. }
    rewrite Hmod in Hsame. split.
    + intros context' row Hrow'. destruct (decide (context = context')) as [<-|Hne].
      * rewrite Hsame in Hrow'. injection Hrow' as <-.
        apply Forall_insert; [|lia].
        eapply Forall_impl; [exact Hrow|]. simpl. lia.
      * rewrite Hother in Hrow'; [|done].
        eapply Forall_impl; [eapply Hw; exact Hrow'|]. simpl. lia.
    + intros context' row Hrow'. destruct (decide (context = context')) as [<-|Hne].
      * exists (<[N.to_nat i := c + 1]> (_get_or_create_context cm context).1).
        split; [done|].
        rewrite get_or_create_row, Hrow'. simpl.
        rewrite get_or_create_row, Hrow' in Hc. simpl in Hc.
        eapply Forall2_le_insert; [exact Hc|lia].
      * exists row. rewrite Hother; [|done]. split; [done|].
        apply Forall2_le_refl.
Qed.

Lemma run_ops_within ops : forall j cm cm',
  j + N.of_nat (length ops) < UINT32_MOD - 1 ->
  counts_within j cm ->
  run_ops ops cm = Ok cm' ->
  counts_within (j + N.of_nat (length ops)) cm' /\ table_grows cm cm'.
Proof.
  induction ops as [|op ops IH]; intros j cm cm' Hj Hw Hrun; simpl in *.
  - injection Hrun as <-. split; [|apply table_grows_refl].
    eapply counts_within_mono; [|exact Hw]. lia.
  - destruct (apply_op cm op) as [cm1| |] eqn:Hop; [|done|done].
    apply apply_op_within with (j := j) in Hop as [Hw1 Hg1]; [|lia|done].
    apply IH with (j := j + 1) in Hrun as [Hw2 Hg2]; [|lia|done].
    split; [|by eapply table_grows_trans].
    eapply counts_within_mono; [|exact Hw2]. lia.
Qed.

Lemma rows_wf_init : rows_wf (ContextModel_init CONTEXT_LENGTH (length DNA_ALPHABET)).
Proof. split; [done|]. intros context row. simpl. by rewrite lookup_empty. Qed.

Lemma get_or_create_wf cm context :
  rows_wf cm ->
  rows_wf (_get_or_create_context cm context).2 /\
  length (_get_or_create_context cm context).1 = length DNA_ALPHABET.
Proof.
  intros [Ha Hrows]. unfold _get_or_create_context.
  destruct (model cm !! context) as [row|] eqn:E; simpl.
  - split; [by split|by eapply Hrows].
  - split; [split; [done|]|by rewrite length_replicate].
    intros context' row. simpl. destruct (decide (context = context')) as [<-|Hne].
    + rewrite lookup_insert_eq. intros [= <-]. by rewrite length_replicate.
    + rewrite lookup_insert_ne by done. apply Hrows.
Qed.

Lemma get_or_create_idem cm context :
  _get_or_create_context (_get_or_create_context cm context).2 context
  = _get_or_create_context cm context.
Proof.
  pose proof (get_or_create_lookup cm context) as Hl.
  destruct (_get_or_create_context cm context) as [row cm1] eqn:E. simpl in *.
  unfold _get_or_create_context at 1. by rewrite Hl.
Qed.


(** [update] after [get_probabilities] succeeds for every symbol of the
    alphabet. *)
Lemma update_defined cm context (i : N) :
  rows_wf cm -> i < 4 ->
  exists cm2, update (get_probabilities cm context).2 context i = Ok cm2 /\ rows_wf cm2.
Proof.
  intros Hwf Hi.
  pose proof (get_or_create_wf cm context Hwf) as [Hwf1 Hlen].
  pose proof (get_or_create_idem cm context) as Hidem.
  unfold get_probabilities.
  destruct (_get_or_create_context cm context) as [row cm1] eqn:E. simpl in *.
  destruct (lookup_lt_is_Some_2 row (N.to_nat i)) as [c Hc].
  { rewrite Hlen. simpl. lia. }
  destruct (update cm1 context i) as [cm2|e|x] eqn:Hup.
  - exists cm2. split; [done|].
    apply update_Ok in Hup as (c' & Hc' & Ha & Hsame & Hother).
    rewrite Hidem in Hsame. simpl in Hsame.
    destruct Hwf1 as [Ha1 Hrows1]. split; [congruence|].
    intros context' row'. destruct (decide (context = context')) as [<-|Hne].
    + rewrite Hsame. intros [= <-]. by rewrite length_insert.
    + rewrite Hother by done. apply Hrows1.
  - exfalso. unfold update in Hup. rewrite Hidem, Hc in Hup. done.
  - exfalso. unfold update in Hup. rewrite Hidem, Hc in Hup. done.
Qed.

End ModelFacts.

(** *** C8: positive, non-decreasing counts and an append-only table *)

(** C8 (as amended).  Starting from a fresh [ContextModel], along any
    sequence of fewer than [2^32 - 1] calls of [get_probabilities] and
    [update]: every count of every row is at least 1, no count decreases
    from an earlier state [cm1] to a later state [cm2], and every context
    of [cm1] is still a context of [cm2]. *)
Theorem counts_positive_monotone_below_wrap
    (k a : nat) (ops1 ops2 : list model_op) (cm1 cm2 : ContextModel) :
  N.of_nat (length ops1 + length ops2) < UINT32_MOD - 1 ->
  run_ops ops1 (ContextModel_init k a) = Ok cm1 ->
  run_ops ops2 cm1 = Ok cm2 ->
  counts_positive cm1 /\ counts_positive cm2 /\ table_grows cm1 cm2.
Proof.
  intros Hlen H1 H2.
  apply run_ops_within with (j := 0) in H1 as [Hw1 _];
    [|lia|apply counts_within_init].
  apply run_ops_within with (j := 0 + N.of_nat (length ops1)) in H2 as [Hw2 Hg];
    [|lia|done].
  split_and!; [by eapply counts_within_positive|by eapply counts_within_positive|done].
Qed.

Lemma counts_positive_monotone_below_wrap_witness :
  exists cm1 cm2,
    run_ops [Update (str_of "NNNNNNNNNN") 0; GetProbabilities (str_of "NNNNNNNNNA")]
            (ContextModel_init CONTEXT_LENGTH 4) = Ok cm1 /\
    run_ops [Update (str_of "NNNNNNNNNA") 2; Update (str_of "NNNNNNNNNN") 0] cm1 = Ok cm2 /\
    counts_positive cm1 /\ counts_positive cm2 /\ table_grows cm1 cm2.
Proof.
  eexists _, _.
  split; [reflexivity|]. split; [reflexivity|].
  apply (counts_positive_monotone_below_wrap CONTEXT_LENGTH 4
           [Update (str_of "NNNNNNNNNN") 0; GetProbabilities (str_of "NNNNNNNNNA")]
           [Update (str_of "NNNNNNNNNA") 2; Update (str_of "NNNNNNNNNN") 0]).
  - vm_compute. reflexivity.
  - reflexivity.
  - reflexivity.
Defined.

(** [n] updates of one cell add [n] modulo [2^32]. *)
Lemma update_replicate context (tl : list N) : forall (n : nat) cm c,
  c < UINT32_MOD ->
  model cm !! context = Some (c :: tl) ->
  exists cm', run_ops (replicate n (Update context 0)) cm = Ok cm' /\
    model cm' !! context = Some ((c + N.of_nat n) mod UINT32_MOD :: tl).
Proof.
  induction n as [|n IH]; intros cm c Hc Hrow.
  - exists cm. split; [done|]. rewrite N.add_0_r, N.mod_small; done.
  - change (replicate (S n) (Update context 0))
      with (Update context 0 :: replicate n (Update context 0)).
    cbn [run_ops apply_op].
    destruct (update cm context 0) as [cm1| |] eqn:Hup.
    + apply update_Ok in Hup as (c0 & Hc0 & _ & Hsame & _).
      rewrite get_or_create_row, Hrow in Hc0, Hsame. simpl in Hc0, Hsame.
      injection Hc0 as <-.
      destruct (IH cm1 ((c + 1) mod UINT32_MOD)) as (cm' & Hrun & Hrow');
        [apply N.mod_upper_bound; done|exact Hsame|].
      exists cm'. split; [done|]. rewrite Hrow'. f_equal. f_equal.
      rewrite N.Div0.add_mod_idemp_l. f_equal. lia.
    + exfalso. unfold update in Hup. rewrite (surjective_pairing (_get_or_create_context _ _)) in Hup.
      rewrite get_or_create_row, Hrow in Hup. simpl in Hup. done.
    + exfalso. unfold update in Hup. rewrite (surjective_pairing (_get_or_create_context _ _)) in Hup.
      rewrite get_or_create_row, Hrow in Hup. simpl in Hup. done.
Qed.

(** C8 (as stated) fails: [2^32 - 1] updates of one cell leave the count
    0, below 1 and below every earlier value. *)
Lemma counts_wrap_to_zero :
  ~ (forall ops cm,
       run_ops ops (ContextModel_init CONTEXT_LENGTH 4) = Ok cm -> counts_positive cm).
Proof.
  intros Hpos.
  set (context := str_of "NNNNNNNNNN").
  set (n := N.to_nat (UINT32_MOD - 2)).
  assert (Hfirst : exists cm1,
    update (ContextModel_init CONTEXT_LENGTH 4) context 0 = Ok cm1 /\
    model cm1 !! context = Some [2; 1; 1; 1]).
  { eexists. split; [reflexivity|]. vm_compute. reflexivity. }
  destruct Hfirst as (cm1 & Hup & Hrow1).
  destruct (update_replicate context [1; 1; 1] n cm1 2) as (cm' & Hrun & Hrow');
    [done|exact Hrow1|].
  specialize (Hpos (Update context 0 :: replicate n (Update context 0)) cm').
  cbn [run_ops apply_op] in Hpos. rewrite Hup in Hpos.
  specialize (Hpos Hrun _ _ Hrow').
  apply Forall_cons in Hpos as [Hzero _].
  subst n. rewrite N2Nat.id in Hzero.
  change ((2 + (UINT32_MOD - 2)) mod UINT32_MOD) with 0 in Hzero. lia.
Qed.

(** ** Context symmetry *)

Lemma INDEX_TO_BASE_inv (i : N) (b : ascii) :
  INDEX_TO_BASE i = Some b -> BASE_TO_INDEX b = Some i.
Proof.
  unfold INDEX_TO_BASE. intros Hb.
  assert (Hi : (N.to_nat i < 4)%nat).
  { apply lookup_lt_Some in Hb. exact Hb. }
  assert (Hcases : i = 0 \/ i = 1 \/ i = 2 \/ i = 3) by lia.
  destruct Hcases as [-> | [-> | [-> | ->]]]; vm_compute in Hb;
    injection Hb as <-; reflexivity.
Qed.

Lemma BASE_TO_INDEX_inv (b : ascii) (i : N) :
  BASE_TO_INDEX b = Some i -> INDEX_TO_BASE i = Some b /\ i < 4.
Proof.
  unfold BASE_TO_INDEX, DNA_ALPHABET. simpl.
  repeat (case_decide; [subst b; intros [= <-]; split; [reflexivity|lia]|]).
  done.
Qed.

Section Symmetry.

Context `{AnsCoder}.

(** The decode loop performs, symbol for symbol, the table and window
    updates that pass 1 performs on the symbols it decodes. *)
Lemma decode_loop_pass1 : forall (n : nat) cm decoder q acc cm' decoder' q' out,
  decode_loop n cm decoder q acc = Ok (cm', decoder', q', out) ->
  exists xs, out = acc ++ xs /\ length xs = n /\
    forall st, exists st', pass1 xs cm q st = Ok (cm', q', st').
Proof.
  induction n as [|n IH]; intros cm decoder q acc cm' decoder' q' out Hloop.
  - injection Hloop as <- <- <- <-. exists []. rewrite app_nil_r.
    split_and!; [done|done|]. intros st. by exists st.
  - cbn [decode_loop] in Hloop.
    destruct (get_probabilities cm (join q)) as [p cm1] eqn:Hp.
    destruct (decode decoder p) as [[i decoder1]|] eqn:Hdec; [|done].
    destruct (update cm1 (join q) i) as [cm2| |] eqn:Hup; [|done|done].
    destruct (INDEX_TO_BASE i) as [b|] eqn:Hb; [|done].
    apply IH in Hloop as (xs & -> & Hlen & Hpass).
    exists (b :: xs). split_and!.
    + by rewrite <- app_assoc.
    + simpl. by rewrite Hlen.
    + intros st. cbn [pass1]. rewrite Hp.
      rewrite (INDEX_TO_BASE_inv _ _ Hb), Hup. apply Hpass.
Qed.

Lemma pass1_app (xs ys : list ascii) : forall cm q acc,
  pass1 (xs ++ ys) cm q acc
  = match pass1 xs cm q acc with
    | Ok (cm', q', acc') => pass1 ys cm' q' acc'
    | Raise e => Raise e
    | Exit c => Exit c
    end.
Proof.
  induction xs as [|b xs IH]; intros cm q acc; [done|].
  rewrite <- app_comm_cons. cbn [pass1].
  destruct (get_probabilities cm (join q)) as [p cm1].
  destruct (BASE_TO_INDEX b) as [i|]; [|done].
  destruct (update cm1 (join q) i) as [cm2|e|c]; [apply IH|done|done].
Qed.

(** *** C2 *)

(** C2.  Let the decode loop of [decompress_file] run [t] iterations and
    decode the first [t] symbols of [S].  Then pass 1 of [compress_file],
    having processed the first [t] symbols of [S], holds the same frequency
    table, key for key and row for row (and the same context window). *)
Theorem context_symmetry (S : list ascii) (t : nat)
    (decoder decoder' : coder) (cm_d : ContextModel) (q_d : list ascii) :
  decode_loop t (ContextModel_init CONTEXT_LENGTH (length DNA_ALPHABET)) decoder
              (replicate CONTEXT_LENGTH "N"%char) []
    = Ok (cm_d, decoder', q_d, take t S) ->
  exists cm_e q_e states,
    pass1 (take t S) (ContextModel_init CONTEXT_LENGTH (length DNA_ALPHABET))
          (replicate CONTEXT_LENGTH "N"%char) [] = Ok (cm_e, q_e, states) /\
    pass1 S (ContextModel_init CONTEXT_LENGTH (length DNA_ALPHABET))
          (replicate CONTEXT_LENGTH "N"%char) []
      = pass1 (drop t S) cm_e q_e states /\
    model cm_e = model cm_d /\ q_e = q_d.
Proof.
  intros Hloop. apply decode_loop_pass1 in Hloop as (xs & Hxs & _ & Hpass).
  simpl in Hxs. subst xs. destruct (Hpass []) as (st' & Hst').
  exists cm_d, q_d, st'. split_and!; [done| |done|done].
  rewrite <- (take_drop t S) at 1. by rewrite pass1_app, Hst'.
Qed.

End Symmetry.

Lemma context_symmetry_witness :
  exists cm_e q_e states,
    pass1 (take 3 (str_of "ACGTA")) (ContextModel_init CONTEXT_LENGTH (length DNA_ALPHABET))
          (replicate CONTEXT_LENGTH "N"%char) [] = Ok (cm_e, q_e, states) /\
    pass1 (str_of "ACGTA") (ContextModel_init CONTEXT_LENGTH (length DNA_ALPHABET))
          (replicate CONTEXT_LENGTH "N"%char) []
      = pass1 (drop 3 (str_of "ACGTA")) cm_e q_e states /\
    model cm_e = model (mkContextModel 10 4
      (<[str_of "NNNNNNNNAC" := [1; 1; 2; 1]]>
        (<[str_of "NNNNNNNNNA" := [1; 2; 1; 1]]>
          (<[str_of "NNNNNNNNNN" := [2; 1; 1; 1]]> ∅)))) /\
    q_e = str_of "NNNNNNNACG".
Proof.
  apply (context_symmetry (H := StackCoder.stack_coder) (str_of "ACGTA") 3
           [StackCoder.S0; StackCoder.S1; StackCoder.S2; StackCoder.S3] [StackCoder.S3]).
  vm_compute. reflexivity.
Defined.

(** ** The file store *)

Lemma bind_Ok {A B} (m : M A) (k : A -> M B) σ a σ' :
  m σ = (Ok a, σ') -> bind m k σ = k a σ'.
Proof. unfold bind. by intros ->. Qed.

Lemma bind_Raise {A B} (m : M A) (k : A -> M B) σ e σ' :
  m σ = (Raise e, σ') -> bind m k σ = (Raise e, σ').
Proof. unfold bind. by intros ->. Qed.

Lemma bind_Exit {A B} (m : M A) (k : A -> M B) σ c σ' :
  m σ = (Exit c, σ') -> bind m k σ = (Exit c, σ').
Proof. unfold bind. by intros ->. Qed.

(** One step of a computation whose first action is known to succeed;
    [tac] proves that it does. *)
Ltac step_ok tac := erewrite bind_Ok; [cbv beta | tac].

Lemma open_read_store path σ : (open_read path σ).2 = σ.
Proof. unfold open_read. by destruct (σ !! path) as [[]|]. Qed.

Lemma open_read_text_store path σ : (open_read_text path σ).2 = σ.
Proof.
  unfold open_read_text, bind, lift, ret.
  pose proof (open_read_store path σ) as Hs.
  destruct (open_read path σ) as [[data| |] σ']; simpl in *; subst; try done.
  by destruct (utf8_decode data).
Qed.

Lemma except_exit_store {A} (m : M A) σ :
  (except_FileNotFoundError_exit m σ).2 = (m σ).2.
Proof.
  unfold except_FileNotFoundError_exit.
  by destruct (m σ) as [[a|[]|] σ'].
Qed.

(** Reading the input never changes the store. *)
Lemma read_fasta_store path σ : (read_fasta_sequence_and_header path σ).2 = σ.
Proof.
  unfold read_fasta_sequence_and_header. rewrite except_exit_store.
  unfold bind. pose proof (open_read_text_store path σ) as Hs.
  destruct (open_read_text path σ) as [[text| |] σ']; simpl in *; subst; try done.
  by destruct (header_search (readlines text)).
Qed.

Lemma read_container_store `{AnsCoder} bo path σ : (read_container bo path σ).2 = σ.
Proof.
  unfold read_container. rewrite except_exit_store.
  unfold bind, lift, ret. pose proof (open_read_store path σ) as Hs.
  destruct (open_read path σ) as [[data| |] σ']; simpl in *; subst; try done.
  destruct (utf8_decode _); simpl; [|done].
  by destruct (frombuffer _ _).
Qed.

(** A path that is absent, and one that cannot be opened. *)
Lemma read_fasta_missing path σ :
  σ !! path = None -> read_fasta_sequence_and_header path σ = (Exit 1, σ).
Proof.
  intros Hp. unfold read_fasta_sequence_and_header, except_FileNotFoundError_exit,
    open_read_text, bind, open_read. by rewrite Hp.
Qed.

Lemma read_fasta_noaccess path σ :
  σ !! path = Some NoAccess ->
  read_fasta_sequence_and_header path σ = (Raise PermissionError, σ).
Proof.
  intros Hp. unfold read_fasta_sequence_and_header, except_FileNotFoundError_exit,
    open_read_text, bind, open_read. by rewrite Hp.
Qed.

Lemma read_container_missing `{AnsCoder} bo path σ :
  σ !! path = None -> read_container bo path σ = (Exit 1, σ).
Proof.
  intros Hp. unfold read_container, except_FileNotFoundError_exit, bind, open_read.
  by rewrite Hp.
Qed.

Lemma read_container_noaccess `{AnsCoder} bo path σ :
  σ !! path = Some NoAccess -> read_container bo path σ = (Raise PermissionError, σ).
Proof.
  intros Hp. unfold read_container, except_FileNotFoundError_exit, bind, open_read.
  by rewrite Hp.
Qed.

(** *** C6 *)

(** C6 (as amended).  When the input path does not exist, [compress_file]
    and [decompress_file] end in [sys.exit(1)]: the process terminates
    with status 1, the call is not retried and the store is unchanged.
    When the path exists but cannot be opened, the error of [open] is
    raised to the caller, again with the store unchanged. *)
Theorem unopenable_input `{AnsCoder} (bo : endian) (σ : fs) (input_path output_path : string) :
  (σ !! input_path = None ->
     compress_file bo input_path output_path σ = (Exit 1, σ) /\
     decompress_file bo input_path output_path σ = (Exit 1, σ)) /\
  (σ !! input_path = Some NoAccess ->
     compress_file bo input_path output_path σ = (Raise PermissionError, σ) /\
     decompress_file bo input_path output_path σ = (Raise PermissionError, σ)).
Proof.
  split; intros Hp.
  - split.
    + unfold compress_file. by erewrite bind_Exit; [|apply read_fasta_missing].
    + unfold decompress_file. by erewrite bind_Exit; [|apply read_container_missing].
  - split.
    + unfold compress_file. by erewrite bind_Raise; [|apply read_fasta_noaccess].
    + unfold decompress_file. by erewrite bind_Raise; [|apply read_container_noaccess].
Qed.

Lemma unopenable_input_witness :
  (compress_file (H := StackCoder.stack_coder) little "missing.fasta" "out.bin" ∅ = (Exit 1, ∅) /\
   decompress_file (H := StackCoder.stack_coder) little "missing.fasta" "out.bin" ∅ = (Exit 1, ∅)) /\
  (compress_file (H := StackCoder.stack_coder) little "locked.fasta" "out.bin"
     {[ "locked.fasta" := NoAccess ]} = (Raise PermissionError, {[ "locked.fasta" := NoAccess ]}) /\
   decompress_file (H := StackCoder.stack_coder) little "locked.fasta" "out.bin"
     {[ "locked.fasta" := NoAccess ]} = (Raise PermissionError, {[ "locked.fasta" := NoAccess ]})).
Proof.
  split.
  - apply (unopenable_input (H := StackCoder.stack_coder) little ∅ "missing.fasta" "out.bin").
    reflexivity.
  - apply (unopenable_input (H := StackCoder.stack_coder) little
             {[ "locked.fasta" := NoAccess ]} "locked.fasta" "out.bin").
    reflexivity.
Defined.

(** C6 (as stated) fails: a missing input is not an error value handed to
    the caller; the call ends the process. *)
Lemma missing_input_terminates_process :
  ~ (forall (σ : fs) (input_path output_path : string),
       σ !! input_path = None ->
       exists e, (compress_file (H := StackCoder.stack_coder) little
                    input_path output_path σ).1 = Raise e).
Proof.
  intros Hclaim.
  destruct (Hclaim ∅ "missing.fasta" "out.bin") as (e & He); [reflexivity|].
  vm_compute in He. discriminate He.
Qed.

Lemma open_write_ok path σ :
  σ !! path ≠ Some NoAccess -> open_write path σ = (Ok (), <[path := File []]> σ).
Proof. unfold open_write. by destruct (σ !! path) as [[]|]. Qed.

Lemma write_ok path data old σ :
  σ !! path = Some (File old) ->
  write path data σ = (Ok (), <[path := File (old ++ data)]> σ).
Proof. unfold write. by intros ->. Qed.

(** The write that follows other writes to the same path. *)
Ltac step_write :=
  step_ok ltac:(apply write_ok; by rewrite lookup_insert_eq);
  rewrite insert_insert_eq.

(** Opening a file for writing and writing it once. *)
Lemma open_write_then_write path data σ :
  σ !! path ≠ Some NoAccess ->
  (open_write path ;;; write path data) σ = (Ok (), <[path := File data]> σ).
Proof.
  intros Hp. erewrite bind_Ok; [|by apply open_write_ok].
  erewrite write_ok; [|by rewrite lookup_insert_eq].
  by rewrite insert_insert_eq.
Qed.

Lemma read_container_zeros `{AnsCoder} bo path σ :
  σ !! path = Some (File (replicate 8 Byte.x00)) ->
  read_container bo path σ = (Ok (0, [], []), σ).
Proof.
  intros Hp. unfold read_container, except_FileNotFoundError_exit, bind, open_read.
  rewrite Hp. reflexivity.
Qed.

(** *** C3 *)

(** C3.  When the input holds no base, whatever its header,
    [compress_file] writes exactly 8 zero bytes; [decompress_file] applied
    to that file writes an empty output: no header and no sequence. *)
Theorem empty_sequence_eight_zero_bytes `{AnsCoder} (bo : endian) (σ : fs)
    (input_path output_path restored_path : string) (items : list item) :
  (read_fasta_sequence_and_header input_path σ).1 = Ok items ->
  (collect items [] []).2 = [] ->
  σ !! output_path ≠ Some NoAccess ->
  σ !! restored_path ≠ Some NoAccess ->
  let σ1 := <[output_path := File (replicate 8 Byte.x00)]> σ in
  compress_file bo input_path output_path σ = (Ok (), σ1) /\
  decompress_file bo output_path restored_path σ1
    = (Ok (), <[restored_path := File []]> σ1).
Proof.
  intros Hread Hseq Hout Hres σ1. split.
  - unfold compress_file.
    erewrite bind_Ok;
      [|rewrite (surjective_pairing (read_fasta_sequence_and_header _ _)),
          Hread, read_fasta_store; reflexivity].
    destruct (collect items [] []) as [header sequence]. simpl in Hseq. subst sequence.
    simpl. by apply open_write_then_write.
  - unfold decompress_file.
    erewrite bind_Ok; [|apply read_container_zeros; subst σ1; by rewrite lookup_insert_eq].
    simpl. apply open_write_then_write. subst σ1.
    destruct (decide (output_path = restored_path)) as [<-|Hne].
    + by rewrite lookup_insert_eq.
    + by rewrite lookup_insert_ne.
Qed.

Lemma empty_sequence_eight_zero_bytes_witness :
  let σ : fs := {[ "empty.fasta" := File (utf8_encode (str_of ">only a header
nnnn
")) ]} in
  let σ1 := <["empty.bin" := File (replicate 8 Byte.x00)]> σ in
  compress_file (H := StackCoder.stack_coder) little "empty.fasta" "empty.bin" σ = (Ok (), σ1) /\
  decompress_file (H := StackCoder.stack_coder) little "empty.bin" "restored.fasta" σ1
    = (Ok (), <["restored.fasta" := File []]> σ1).
Proof.
  intros σ.
  apply (empty_sequence_eight_zero_bytes (H := StackCoder.stack_coder) little σ
           "empty.fasta" "empty.bin" "restored.fasta" [HEADER (str_of ">only a header")]).
  - vm_compute. reflexivity.
  - reflexivity.
  - vm_compute. discriminate.
  - vm_compute. discriminate.
Defined.

(** ** The reader on a file without a header line *)

Lemma header_search_none (lines : list str) :
  Forall (fun line => startswith_gt line = false) lines ->
  header_search lines = ([], []).
Proof.
  induction 1 as [|line lines Hline _ IH]; [done|].
  simpl. by rewrite Hline.
Qed.

(** *** C7 *)

(** C7 (the code departs from it).  For every file with no line starting
    with [>], the reader yields nothing at all: the header stays empty and
    so does the sequence, because the header search has consumed every
    line.  The bases C7 promises are the ones [get_dna_payload] of
    [eval.py] reads from the same file. *)
Theorem headerless_file_reads_no_bases (σ : fs) (filepath : string)
    (data : list byte) (text : str) :
  σ !! filepath = Some (File data) ->
  utf8_decode data = Some text ->
  Forall (fun line => startswith_gt line = false) (readlines (universal_newlines text)) ->
  read_fasta_sequence_and_header filepath σ = (Ok [], σ) /\
  collect [] [] [] = ([], []) /\
  get_dna_payload filepath σ
    = (Ok (Some (readlines (universal_newlines text) ≫= (fun line =>
             filter (fun c => c ∈ str_of "ACGT") (upper (strip line))))), σ).
Proof.
  intros Hp Hdec Hlines.
  assert (Htext : open_read_text filepath σ = (Ok (universal_newlines text), σ)).
  { unfold open_read_text, bind, open_read, lift, ret. rewrite Hp. simpl.
    by rewrite Hdec. }
  split_and!.
  - unfold read_fasta_sequence_and_header, except_FileNotFoundError_exit, bind.
    rewrite Htext. by rewrite header_search_none.
  - done.
  - unfold get_dna_payload. rewrite Htext. do 3 f_equal.
    induction Hlines as [|line lines Hline _ IH]; [done|].
    by rewrite !bind_cons, Hline, IH.
Qed.

Lemma headerless_file_reads_no_bases_witness :
  let σ : fs := {[ "plain.fasta" := File (utf8_encode (str_of "ACGTAC
ggta
")) ]} in
  read_fasta_sequence_and_header "plain.fasta" σ = (Ok [], σ) /\
  collect [] [] [] = ([], []) /\
  get_dna_payload "plain.fasta" σ = (Ok (Some (str_of "ACGTACGGTA")), σ).
Proof.
  intros σ.
  apply (headerless_file_reads_no_bases σ "plain.fasta"
           (utf8_encode (str_of "ACGTAC
ggta
")) (str_of "ACGTAC
ggta
")).
  - reflexivity.
  - vm_compute. reflexivity.
  - vm_compute. repeat constructor.
Defined.

(** ** Writes happen after the passes *)

Section OutputOrder.

Context `{AnsCoder}.
Variable bo : endian.

(** *** C10 *)

(** C10.  If a call of [compress_file] changed the store at all, then the
    input was read to the end and, when the sequence is not empty, pass 1
    and pass 2 had both completed: a failure while reading, modelling or
    encoding leaves every path, the output path included, as it was. *)
Theorem output_written_after_both_passes (σ σ' : fs) (input_path output_path : string)
    (r : outcome unit) :
  compress_file bo input_path output_path σ = (r, σ') ->
  σ' ≠ σ ->
  exists items header sequence,
    read_fasta_sequence_and_header input_path σ = (Ok items, σ) /\
    collect items [] [] = (header, sequence) /\
    (sequence ≠ [] ->
     exists st compressed_data,
       pass1 sequence (ContextModel_init CONTEXT_LENGTH (length DNA_ALPHABET))
             (replicate CONTEXT_LENGTH "N"%char) [] = Ok st /\
       pass2 st.2 = Ok compressed_data).
Proof.
  intros Hrun Hchanged. unfold compress_file in Hrun.
  pose proof (read_fasta_store input_path σ) as Hstore.
  unfold bind at 1 in Hrun.
  destruct (read_fasta_sequence_and_header input_path σ) as [[items|e|c] σ0];
    simpl in Hstore; subst σ0; [|congruence|congruence].
  destruct (collect items [] []) as [header sequence] eqn:Hcollect.
  exists items, header, sequence. split_and!; [done|done|].
  intros Hne. case_decide as Hlen; [by destruct sequence|].
  unfold bind at 1, lift at 1 in Hrun.
  destruct (pass1 sequence _ _ []) as [st|e|c] eqn:Hpass1; [|congruence|congruence].
  unfold bind at 1, lift at 1 in Hrun.
  destruct (pass2 st.2) as [words|e|c] eqn:Hpass2; [|congruence|congruence].
  by exists st, words.
Qed.

End OutputOrder.

Lemma output_written_after_both_passes_witness :
  let σ : fs := {[ "in.fasta" := File (utf8_encode (str_of ">sample1
ACGTACGTAC
")) ]} in
  exists items header sequence,
    read_fasta_sequence_and_header "in.fasta" σ = (Ok items, σ) /\
    collect items [] [] = (header, sequence) /\
    (sequence ≠ [] ->
     exists st compressed_data,
       pass1 sequence (ContextModel_init CONTEXT_LENGTH (length DNA_ALPHABET))
             (replicate CONTEXT_LENGTH "N"%char) [] = Ok st /\
       pass2 (H := StackCoder.stack_coder) st.2 = Ok compressed_data).
Proof.
  intros σ.
  apply (output_written_after_both_passes (H := StackCoder.stack_coder) little σ
           (compress_file (H := StackCoder.stack_coder) little "in.fasta" "out.bin" σ).2
           "in.fasta" "out.bin"
           (compress_file (H := StackCoder.stack_coder) little "in.fasta" "out.bin" σ).1).
  - apply surjective_pairing.
  - intros Heq. apply (f_equal (fun m : fs => m !! "out.bin")) in Heq.
    vm_compute in Heq. discriminate Heq.
Defined.

(** ** Wrapping at 70 characters *)

Lemma utf8_encode_app (s1 s2 : str) :
  utf8_encode (s1 ++ s2) = utf8_encode s1 ++ utf8_encode s2.
Proof. unfold utf8_encode. apply bind_app. Qed.

Lemma write_all_ok path (chunks : list str) : forall old σ,
  σ !! path = Some (File old) ->
  write_all path chunks σ
    = (Ok (), <[path := File (old ++ utf8_encode (concat chunks))]> σ).
Proof.
  induction chunks as [|s chunks IH]; intros old σ Hp.
  - simpl. unfold ret. rewrite app_nil_r. by rewrite insert_id.
  - cbn [write_all]. erewrite bind_Ok; [|by apply write_ok].
    rewrite (IH (old ++ utf8_encode s)); [|by rewrite lookup_insert_eq].
    rewrite insert_insert_eq. simpl. by rewrite utf8_encode_app, app_assoc.
Qed.

Lemma render_concat header s :
  concat (render header s)
  = header ++ [LF] ++ concat ((fun l => l ++ [LF]) <$> wrapped_lines s).
Proof.
  unfold render, wrapped_lines. simpl. rewrite <- app_assoc. simpl.
  do 3 f_equal. by rewrite <- list_fmap_compose.
Qed.

Lemma concat_slices (s : str) (c : nat) :
  concat ((fun i => slice s i 70) <$> ((fun k => k * 70)%nat <$> seq 0 c))
  = take (c * 70) s.
Proof.
  induction c as [|c IH]; [done|].
  rewrite seq_S, !fmap_app, concat_app, IH. simpl. rewrite app_nil_r.
  unfold slice. rewrite take_take_drop. f_equal. lia.
Qed.

Lemma div_up_bounds (n : nat) :
  (70 * ((n + 69) / 70) <= n + 69 < 70 * ((n + 69) / 70) + 70)%nat.
Proof.
  pose proof (Nat.div_mod_eq (n + 69) 70) as Hdm.
  pose proof (Nat.mod_upper_bound (n + 69) 70) as Hub. lia.
Qed.

Lemma range0_70 (n : nat) :
  range0 n 70 = (fun k => k * 70)%nat <$> seq 0 ((n + 69) / 70)%nat.
Proof. unfold range0. by replace (n + 70 - 1)%nat with (n + 69)%nat by lia. Qed.

Lemma wrapped_lines_concat (s : str) : concat (wrapped_lines s) = s.
Proof.
  unfold wrapped_lines. rewrite range0_70, concat_slices.
  apply take_ge. pose proof (div_up_bounds (length s)). lia.
Qed.



Section Decompress.

Context `{AnsCoder}.
Variable bo : endian.

(** [decompress_file] on a container with a non-zero length, stage by
    stage. *)
Lemma decompress_file_nonempty (σ : fs) (input_path output_path : string)
    (seq_len : N) (header : str) (compressed_data : list N) :
  read_container bo input_path σ = (Ok (seq_len, header, compressed_data), σ) ->
  seq_len ≠ 0 ->
  decompress_file bo input_path output_path σ =
    match coder_from_compressed compressed_data with
    | None => (Raise CoderError, σ)
    | Some decoder =>
        match decode_loop (N.to_nat seq_len)
                (ContextModel_init CONTEXT_LENGTH (length DNA_ALPHABET)) decoder
                (replicate CONTEXT_LENGTH "N"%char) [] with
        | Ok st =>
            match σ !! output_path with
            | Some NoAccess => (Raise PermissionError, σ)
            | _ => (Ok (), <[output_path :=
                              File (utf8_encode (concat (render header st.2)))]> σ)
            end
        | Raise e => (Raise e, σ)
        | Exit c => (Exit c, σ)
        end
    end.
Proof.
  intros Hread Hlen. unfold decompress_file.
  step_ok ltac:(exact Hread). cbv iota. case_decide; [done|].
  unfold bind at 1, lift at 1.
  destruct (coder_from_compressed compressed_data) as [decoder|]; cbn [of_option]; [|done].
  unfold bind at 1, lift at 1.
  destruct (decode_loop _ _ decoder _ []) as [st|e|c]; [|done|done].
  destruct (σ !! output_path) as [[old|]|] eqn:Hp.
  - step_ok ltac:(apply open_write_ok; congruence).
    rewrite (write_all_ok _ _ []); [|by rewrite lookup_insert_eq].
    by rewrite insert_insert_eq.
  - unfold bind, open_write. by rewrite Hp.
  - step_ok ltac:(apply open_write_ok; congruence).
    rewrite (write_all_ok _ _ []); [|by rewrite lookup_insert_eq].
    by rewrite insert_insert_eq.
Qed.

(** *** C9 *)


End Decompress.


(** ** The container written by [compress_file] *)

Section Container.

Context `{AnsCoder}.
Variable bo : endian.

(** [compress_file] on a non-empty sequence, stage by stage.  The two
    length fields are converted inside the [with] block: a field that does
    not fit raises after the file has been created. *)
Lemma compress_file_nonempty (σ : fs) (input_path output_path : string)
    (items : list item) (header : str) (sequence : list ascii) :
  read_fasta_sequence_and_header input_path σ = (Ok items, σ) ->
  collect items [] [] = (header, sequence) ->
  sequence ≠ [] ->
  compress_file bo input_path output_path σ =
    match pass1 sequence (ContextModel_init CONTEXT_LENGTH (length DNA_ALPHABET))
                (replicate CONTEXT_LENGTH "N"%char) [] with
    | Ok st =>
        match pass2 st.2 with
        | Ok compressed_data =>
            match σ !! output_path with
            | Some NoAccess => (Raise PermissionError, σ)
            | _ =>
                match to_bytes 8 big (N.of_nat (length sequence)) with
                | Ok b8 =>
                    match to_bytes 2 big (N.of_nat (length (utf8_encode header))) with
                    | Ok b2 =>
                        (Ok (), <[output_path :=
                                   File (b8 ++ b2 ++ utf8_encode header
                                            ++ tobytes bo compressed_data)]> σ)
                    | Raise e => (Raise e, <[output_path := File b8]> σ)
                    | Exit c => (Exit c, <[output_path := File b8]> σ)
                    end
                | Raise e => (Raise e, <[output_path := File []]> σ)
                | Exit c => (Exit c, <[output_path := File []]> σ)
                end
            end
        | Raise e => (Raise e, σ)
        | Exit c => (Exit c, σ)
        end
    | Raise e => (Raise e, σ)
    | Exit c => (Exit c, σ)
    end.
Proof.
  intros Hread Hcollect Hne. unfold compress_file.
  step_ok ltac:(exact Hread). rewrite Hcollect.
  case_decide as Hlen; [by destruct sequence|].
  unfold bind at 1, lift at 1.
  destruct (pass1 sequence _ _ []) as [st|e|c]; [|done|done].
  unfold bind at 1, lift at 1.
  destruct (pass2 st.2) as [words|e|c]; [|done|done].
  assert (Hw : σ !! output_path ≠ Some NoAccess ->
    (open_write output_path ;;;
     b8 <- lift (to_bytes 8 big (N.of_nat (length sequence))) ;;
     write output_path b8 ;;;
     b2 <- lift (to_bytes 2 big (N.of_nat (length (utf8_encode header)))) ;;
     write output_path b2 ;;;
     write output_path (utf8_encode header) ;;;
     write output_path (tobytes bo words)) σ
    = match to_bytes 8 big (N.of_nat (length sequence)) with
      | Ok b8 =>
          match to_bytes 2 big (N.of_nat (length (utf8_encode header))) with
          | Ok b2 =>
              (Ok (), <[output_path :=
                         File (b8 ++ b2 ++ utf8_encode header ++ tobytes bo words)]> σ)
          | Raise e => (Raise e, <[output_path := File b8]> σ)
          | Exit c => (Exit c, <[output_path := File b8]> σ)
          end
      | Raise e => (Raise e, <[output_path := File []]> σ)
      | Exit c => (Exit c, <[output_path := File []]> σ)
      end).
  { intros Hna.
    step_ok ltac:(apply open_write_ok; congruence).
    unfold bind at 1, lift at 1.
    destruct (to_bytes 8 big _) as [b8|e|c]; [|done|done].
    step_write. simpl app.
    unfold bind at 1, lift at 1.
    destruct (to_bytes 2 big _) as [b2|e|c]; [|done|done].
    step_write. step_write.
    erewrite write_ok; [|by rewrite lookup_insert_eq].
    rewrite insert_insert_eq. by rewrite <- !app_assoc. }
  destruct (σ !! output_path) as [[old|]|] eqn:Hp.
  - by apply Hw.
  - unfold bind, open_write. by rewrite Hp.
  - by apply Hw.
Qed.

End Container.

(** ** Integers as bytes *)

Lemma N_of_byte_of_N (n : N) : n < 256 -> N_of_byte (byte_of_N n) = n.
Proof.
  intros Hn. unfold N_of_byte, byte_of_N.
  rewrite ascii_of_byte_of_ascii. by apply N_ascii_embedding.
Qed.

Lemma byte_of_N_of_byte (b : byte) : byte_of_N (N_of_byte b) = b.
Proof.
  unfold N_of_byte, byte_of_N.
  by rewrite ascii_N_embedding, byte_of_ascii_of_byte.
Qed.

Lemma length_le_digits (len : nat) : forall n, length (le_digits len n) = len.
Proof. induction len as [|len IH]; intros n; simpl; [done|]. by rewrite IH. Qed.

Lemma from_le_digits (len : nat) : forall n,
  n < 256 ^ N.of_nat len ->
  foldr (fun b acc => N_of_byte b + 256 * acc) 0 (le_digits len n) = n.
Proof.
  induction len as [|len IH]; intros n Hn.
  - simpl in *. lia.
  - cbn [le_digits foldr].
    rewrite N_of_byte_of_N by (apply N.mod_upper_bound; lia).
    rewrite IH.
    + pose proof (N.div_mod n 256). lia.
    + rewrite Nat2N.inj_succ, N.pow_succ_r' in Hn.
      apply N.Div0.div_lt_upper_bound. lia.
Qed.

(** [to_bytes] writes [len] bytes that [from_bytes] reads back. *)
Lemma from_bytes_to_bytes (len : nat) (order : endian) (n : N) (bs : list byte) :
  to_bytes len order n = Ok bs ->
  length bs = len /\ from_bytes order bs = n.
Proof.
  unfold to_bytes, from_bytes. destruct (N.ltb_spec n (256 ^ N.of_nat len)); [|done].
  intros [= <-]. destruct order.
  - split; [apply length_le_digits|by apply from_le_digits].
  - rewrite length_rev, rev_involutive.
    split; [apply length_le_digits|by apply from_le_digits].
Qed.

Lemma to_bytes_fits (len : nat) (order : endian) (n : N) :
  n < 256 ^ N.of_nat len -> exists bs, to_bytes len order n = Ok bs.
Proof.
  intros Hn. unfold to_bytes.
  destruct (N.ltb_spec n (256 ^ N.of_nat len)); [by eexists|lia].
Qed.

Lemma tobytes_words byteorder (words : list N) :
  tobytes byteorder words = words ≫= word_bytes byteorder.
Proof. done. Qed.

Lemma length_word_bytes byteorder w : length (word_bytes byteorder w) = 4%nat.
Proof. destruct byteorder; simpl; done. Qed.

Lemma from_word_bytes byteorder w :
  w < UINT32_MOD -> from_bytes byteorder (word_bytes byteorder w) = w.
Proof.
  intros Hw.
  destruct (to_bytes_fits 4 byteorder w) as (bs & Hbs); [exact Hw|].
  pose proof (from_bytes_to_bytes _ _ _ _ Hbs) as [_ Hfrom].
  unfold to_bytes in Hbs. destruct (w <? 256 ^ N.of_nat 4); [|done].
  injection Hbs as <-. exact Hfrom.
Qed.

Lemma length_tobytes byteorder (words : list N) :
  length (tobytes byteorder words) = (4 * length words)%nat.
Proof.
  rewrite tobytes_words. induction words as [|w words IH]; [done|].
  rewrite bind_cons, length_app, length_word_bytes, IH. simpl. lia.
Qed.

Lemma words_of_tobytes byteorder (words : list N) :
  Forall (fun w => w < UINT32_MOD) words ->
  words_of byteorder (length words) (tobytes byteorder words) = words.
Proof.
  rewrite tobytes_words.
  induction 1 as [|w words Hw _ IH]; [done|].
  rewrite bind_cons. cbn [length words_of].
  rewrite take_app_length' by (symmetry; apply length_word_bytes).
  rewrite drop_app_length' by (symmetry; apply length_word_bytes).
  by rewrite from_word_bytes, IH.
Qed.

(** [np.frombuffer] reads back what [tobytes] wrote on the same host. *)
Lemma frombuffer_tobytes byteorder (words : list N) :
  Forall (fun w => w < UINT32_MOD) words ->
  frombuffer byteorder (tobytes byteorder words) = Ok words.
Proof.
  intros Hw. unfold frombuffer. rewrite length_tobytes.
  rewrite decide_True by (rewrite Nat.mul_comm; apply Nat.Div0.mod_mul).
  replace (4 * length words / 4)%nat with (length words)
    by (rewrite Nat.mul_comm, Nat.div_mul; done).
  by rewrite words_of_tobytes.
Qed.

(** *** C4 *)

(** C4 (as amended).  A compression of a non-empty sequence that
    completes writes, in order: the sequence length as 8 bytes, big-endian;
    the number [N] of header bytes as 2 bytes, big-endian; the [N] UTF-8
    bytes of the header; then every code word as 4 bytes in the byte order
    of the host, the same order for every word. *)
Theorem container_layout `{AnsCoder} (bo : endian) (σ σ' : fs)
    (input_path output_path : string)
    (items : list item) (header : str) (sequence : list ascii) :
  read_fasta_sequence_and_header input_path σ = (Ok items, σ) ->
  collect items [] [] = (header, sequence) ->
  sequence ≠ [] ->
  compress_file bo input_path output_path σ = (Ok (), σ') ->
  exists st compressed_data b8 b2,
    pass1 sequence (ContextModel_init CONTEXT_LENGTH (length DNA_ALPHABET))
          (replicate CONTEXT_LENGTH "N"%char) [] = Ok st /\
    pass2 st.2 = Ok compressed_data /\
    σ' !! output_path
      = Some (File (b8 ++ b2 ++ utf8_encode header ++ compressed_data ≫= word_bytes bo)) /\
    length b8 = 8%nat /\ from_bytes big b8 = N.of_nat (length sequence) /\
    length b2 = 2%nat /\ from_bytes big b2 = N.of_nat (length (utf8_encode header)).
Proof.
  intros Hread Hcollect Hne Hrun.
  rewrite (compress_file_nonempty bo _ _ _ _ _ _ Hread Hcollect Hne) in Hrun.
  destruct (pass1 sequence _ _ []) as [st|e|c] eqn:Hpass1; [|done|done].
  destruct (pass2 st.2) as [words|e|c] eqn:Hpass2; [|done|done].
  destruct (to_bytes 8 big _) as [b8|e|c] eqn:Hb8;
    [|destruct (σ !! output_path) as [[]|]; done..].
  destruct (to_bytes 2 big _) as [b2|e|c] eqn:Hb2;
    [|destruct (σ !! output_path) as [[]|]; done..].
  apply from_bytes_to_bytes in Hb8 as [Hl8 Hf8].
  apply from_bytes_to_bytes in Hb2 as [Hl2 Hf2].
  exists st, words, b8, b2. split_and!; try done.
  rewrite <- tobytes_words.
  destruct (σ !! output_path) as [[]|]; [|done|];
    injection Hrun as <-; by rewrite lookup_insert_eq.
Qed.

Lemma container_layout_witness :
  let σ : fs := {[ "in.fasta" := File (utf8_encode (str_of ">sample1
ACGTACGTAC
")) ]} in
  exists st compressed_data b8 b2,
    pass1 (str_of "ACGTACGTAC") (ContextModel_init CONTEXT_LENGTH (length DNA_ALPHABET))
          (replicate CONTEXT_LENGTH "N"%char) [] = Ok st /\
    pass2 (H := StackCoder.stack_coder) st.2 = Ok compressed_data /\
    (compress_file (H := StackCoder.stack_coder) little "in.fasta" "out.bin" σ).2 !! "out.bin"
      = Some (File (b8 ++ b2 ++ utf8_encode (str_of ">sample1")
                       ++ compressed_data ≫= word_bytes little)) /\
    length b8 = 8%nat /\ from_bytes big b8 = N.of_nat (length (str_of "ACGTACGTAC")) /\
    length b2 = 2%nat /\
    from_bytes big b2 = N.of_nat (length (utf8_encode (str_of ">sample1"))).
Proof.
  intros σ.
  apply (container_layout (H := StackCoder.stack_coder) little σ
           (compress_file (H := StackCoder.stack_coder) little "in.fasta" "out.bin" σ).2
           "in.fasta" "out.bin"
           (HEADER (str_of ">sample1") :: (BASE <$> str_of "ACGTACGTAC"))).
  - vm_compute. reflexivity.
  - reflexivity.
  - discriminate.
  - vm_compute. reflexivity.
Defined.

(** C4 (as stated) fails on a little-endian host: the code words are not
    written big-endian. *)
Lemma code_words_not_big_endian :
  ~ (forall (bo : endian) (σ σ' : fs) (input_path output_path : string)
            (items : list item) (header : str) (sequence : list ascii)
            st compressed_data b8 b2,
       read_fasta_sequence_and_header input_path σ = (Ok items, σ) ->
       collect items [] [] = (header, sequence) ->
       sequence ≠ [] ->
       compress_file (H := StackCoder.stack_coder) bo input_path output_path σ = (Ok (), σ') ->
       pass1 sequence (ContextModel_init CONTEXT_LENGTH (length DNA_ALPHABET))
             (replicate CONTEXT_LENGTH "N"%char) [] = Ok st ->
       pass2 (H := StackCoder.stack_coder) st.2 = Ok compressed_data ->
       to_bytes 8 big (N.of_nat (length sequence)) = Ok b8 ->
       to_bytes 2 big (N.of_nat (length (utf8_encode header))) = Ok b2 ->
       σ' !! output_path
         = Some (File (b8 ++ b2 ++ utf8_encode header ++ compressed_data ≫= word_bytes big))).
Proof.
  intros Hclaim.
  set (σ := ({[ "in.fasta" := File (utf8_encode (str_of ">sample1
ACGTACGTAC
")) ]} : fs)).
  destruct (pass1 (str_of "ACGTACGTAC")
              (ContextModel_init CONTEXT_LENGTH (length DNA_ALPHABET))
              (replicate CONTEXT_LENGTH "N"%char) []) as [st|e|c] eqn:Hpass1;
    [|vm_compute in Hpass1; discriminate Hpass1..].
  assert (Hpass2 : pass2 (H := StackCoder.stack_coder) st.2
                   = Ok [1; 0; 3; 2; 1; 0; 3; 2; 1; 0]).
  { pose proof Hpass1 as Hst. vm_compute in Hst. injection Hst as <-.
    vm_compute. reflexivity. }
  assert (Hread : read_fasta_sequence_and_header "in.fasta" σ
                  = (Ok (HEADER (str_of ">sample1") :: (BASE <$> str_of "ACGTACGTAC")), σ))
    by (vm_compute; reflexivity).
  assert (Hrun : compress_file (H := StackCoder.stack_coder) little "in.fasta" "out.bin" σ
                 = (Ok (), (compress_file (H := StackCoder.stack_coder) little
                              "in.fasta" "out.bin" σ).2))
    by (vm_compute; reflexivity).
  assert (Hb8 : to_bytes 8 big (N.of_nat (length (str_of "ACGTACGTAC")))
                = Ok (replicate 7 Byte.x00 ++ [Byte.x0a]))
    by (vm_compute; reflexivity).
  assert (Hb2 : to_bytes 2 big (N.of_nat (length (utf8_encode (str_of ">sample1"))))
                = Ok [Byte.x00; Byte.x08])
    by (vm_compute; reflexivity).
  assert (Hne : str_of "ACGTACGTAC" ≠ []) by discriminate.
  pose proof (Hclaim little σ _ "in.fasta" "out.bin" _ _ _ _ _ _ _
                Hread eq_refl Hne Hrun Hpass1 Hpass2 Hb8 Hb2) as Habs.
  vm_compute in Habs. discriminate Habs.
Qed.

(** ** Truncated containers *)

Section Truncation.

Context `{AnsCoder}.
Variable bo : endian.

(** *** C5 *)

(** C5 (as amended).  Take a container whose header decodes and whose
    code-word region is a whole number of 4-byte words, and cut [k] bytes
    off the end of that region, [k] not a multiple of 4.  Then
    [decompress_file] fails with the [ValueError] of [np.frombuffer] and
    writes nothing. *)
Theorem truncation_inside_a_word (σ : fs) (input_path output_path : string)
    (data : list byte) (k : nat) (header : str) :
  utf8_decode (take (N.to_nat (from_bytes big (take 2 (drop 8 data)))) (drop 10 data))
    = Some header ->
  (length (drop (10 + N.to_nat (from_bytes big (take 2 (drop 8 data)))) data) `mod` 4 = 0)%nat ->
  (k <= length (drop (10 + N.to_nat (from_bytes big (take 2 (drop 8 data)))) data))%nat ->
  (k `mod` 4 ≠ 0)%nat ->
  σ !! input_path = Some (File (take (length data - k) data)) ->
  decompress_file bo input_path output_path σ = (Raise ValueError, σ).
Proof.
  set (hl := N.to_nat (from_bytes big (take 2 (drop 8 data)))).
  intros Hheader Hwords Hk Hpartial Hp.
  rewrite length_drop in Hwords, Hk.
  assert (Hk0 : (k ≠ 0)%nat) by (intros ->; done).
  set (m := (length data - k)%nat) in *.
  assert (Hm : (m = 10 + hl + (length data - (10 + hl) - k))%nat) by lia.
  assert (H8 : take 8 (take m data) = take 8 data)
    by (rewrite take_take; f_equal; lia).
  assert (H2 : take 2 (drop 8 (take m data)) = take 2 (drop 8 data)).
  { replace m with (8 + (m - 8))%nat by lia.
    rewrite <- take_drop_commute, take_take. f_equal. lia. }
  assert (Hh : forall n, n = hl -> take n (drop 10 (take m data)) = take n (drop 10 data)).
  { intros n ->. replace m with (10 + (m - 10))%nat by lia.
    rewrite <- take_drop_commute, take_take. f_equal. lia. }
  assert (Hrest : forall n, n = hl ->
            (length (drop (10 + n) (take m data)) `mod` 4 ≠ 0)%nat).
  { intros n ->. rewrite length_drop, length_take.
    pose proof (Nat.div_mod_eq (length data - (10 + hl)) 4).
    pose proof (Nat.div_mod_eq k 4).
    pose proof (Nat.mod_upper_bound k 4).
    pose proof (Nat.div_mod_eq (m `min` length data - (10 + hl)) 4).
    pose proof (Nat.mod_upper_bound (m `min` length data - (10 + hl)) 4).
    lia. }
  unfold decompress_file.
  erewrite bind_Raise; [done|].
  unfold read_container, except_FileNotFoundError_exit, bind at 1, open_read.
  rewrite Hp. cbv beta iota. rewrite H2. fold hl.
  unfold bind at 1, lift at 1. rewrite (Hh hl eq_refl), Hheader. cbn [of_option].
  unfold bind at 1, lift at 1, frombuffer.
  by rewrite decide_False by (by apply Hrest).
Qed.

(** With a decoder that never raises, the decode loop runs to the end,
    however many iterations are asked of it. *)
Lemma decode_loop_total :
  (forall (c : coder) p, exists s c', decode c p = Some (s, c') /\ s < 4) ->
  forall (n : nat) cm decoder q acc,
    rows_wf cm -> exists st, decode_loop n cm decoder q acc = Ok st.
Proof.
  intros Htotal. induction n as [|n IH]; intros cm decoder q acc Hwf.
  - by eexists.
  - cbn [decode_loop].
    rewrite (surjective_pairing (get_probabilities cm (join q))).
    destruct (Htotal decoder (get_probabilities cm (join q)).1)
      as (s & decoder' & -> & Hs).
    destruct (update_defined cm (join q) s Hwf Hs) as (cm2 & -> & Hwf2).
    assert (Hbase : is_Some (INDEX_TO_BASE s)).
    { unfold INDEX_TO_BASE. apply lookup_lt_is_Some_2. simpl. lia. }
    destruct Hbase as [b ->]. by apply IH.
Qed.

(** [decompress_file] compares nothing with the declared length: with such
    a decoder it completes on every container whose header decodes and
    whose code-word region is a whole number of words. *)
Lemma decompress_file_unchecked (σ : fs) (input_path output_path : string)
    (data : list byte) (header : str) :
  (forall ws, is_Some (coder_from_compressed ws)) ->
  (forall (c : coder) p, exists s c', decode c p = Some (s, c') /\ s < 4) ->
  σ !! input_path = Some (File data) ->
  utf8_decode (take (N.to_nat (from_bytes big (take 2 (drop 8 data)))) (drop 10 data))
    = Some header ->
  (length (drop (10 + N.to_nat (from_bytes big (take 2 (drop 8 data)))) data) `mod` 4 = 0)%nat ->
  σ !! output_path ≠ Some NoAccess ->
  exists σ', decompress_file bo input_path output_path σ = (Ok (), σ').
Proof.
  intros Hfrom Htotal Hp Hheader Hwords Hout.
  assert (Hrc : exists words,
    read_container bo input_path σ
    = (Ok (from_bytes big (take 8 data), header, words), σ)).
  { eexists. unfold read_container, except_FileNotFoundError_exit, bind at 1, open_read.
    rewrite Hp. cbv beta iota.
    unfold bind at 1, lift at 1. rewrite Hheader. cbn [of_option].
    unfold bind at 1, lift at 1, frombuffer. by rewrite decide_True. }
  destruct Hrc as (words & Hrc).
  destruct (decide (from_bytes big (take 8 data) = 0)) as [Hzero|Hnz].
  - eexists. unfold decompress_file. erewrite bind_Ok; [|exact Hrc].
    cbv beta iota. rewrite decide_True by done.
    by apply open_write_then_write.
  - rewrite (decompress_file_nonempty bo _ _ _ _ _ _ Hrc Hnz).
    destruct (Hfrom words) as [decoder ->].
    destruct (decode_loop_total Htotal (N.to_nat (from_bytes big (take 8 data)))
                (ContextModel_init CONTEXT_LENGTH (length DNA_ALPHABET)) decoder
                (replicate CONTEXT_LENGTH "N"%char) [] rows_wf_init) as [st ->].
    destruct (σ !! output_path) as [[]|]; [by eexists|done|by eexists].
Qed.

End Truncation.

Lemma truncation_inside_a_word_witness :
  let σ0 : fs := {[ "in.fasta" := File (utf8_encode (str_of ">h
CG
")) ]} in
  let σ1 := (compress_file (H := StackCoder.stack_coder) little "in.fasta" "out.bin" σ0).2 in
  let data := [Byte.x00; Byte.x00; Byte.x00; Byte.x00; Byte.x00; Byte.x00; Byte.x00;
               Byte.x02; Byte.x00; Byte.x02; Byte.x3e; Byte.x68; Byte.x02; Byte.x00;
               Byte.x00; Byte.x00; Byte.x01; Byte.x00; Byte.x00; Byte.x00] in
  σ1 !! "out.bin" = Some (File data) /\
  let σ := <["cut.bin" := File (take (length data - 3) data)]> σ1 in
  decompress_file (H := StackCoder.stack_coder) little "cut.bin" "restored.fasta" σ
    = (Raise ValueError, σ).
Proof.
  intros σ0 σ1 data. split; [vm_compute; reflexivity|]. intros σ.
  apply (truncation_inside_a_word (H := StackCoder.stack_coder) little σ
           "cut.bin" "restored.fasta" data 3 (str_of ">h")).
  - vm_compute. reflexivity.
  - reflexivity.
  - vm_compute. lia.
  - vm_compute. discriminate.
  - vm_compute. reflexivity.
Defined.

(** C5 (as stated) fails: [decompress_file] checks neither the number of
    words nor the number of header bytes.  With the reference stack coder,
    cutting the last whole word off the container of the sequence [CG]
    decompresses without an error to the sequence [GA]. *)
Lemma whole_word_truncation_undetected :
  let σ0 : fs := {[ "in.fasta" := File (utf8_encode (str_of ">h
CG
")) ]} in
  let σ1 := (compress_file (H := StackCoder.stack_coder) little "in.fasta" "out.bin" σ0).2 in
  let data := [Byte.x00; Byte.x00; Byte.x00; Byte.x00; Byte.x00; Byte.x00; Byte.x00;
               Byte.x02; Byte.x00; Byte.x02; Byte.x3e; Byte.x68; Byte.x02; Byte.x00;
               Byte.x00; Byte.x00; Byte.x01; Byte.x00; Byte.x00; Byte.x00] in
  let whole := decompress_file (H := StackCoder.stack_coder) little
                 "out.bin" "restored.fasta" σ1 in
  let cut := decompress_file (H := StackCoder.stack_coder) little
               "cut.bin" "restored.fasta"
               (<["cut.bin" := File (take (length data - 4) data)]> σ1) in
  σ1 !! "out.bin" = Some (File data) /\
  whole.1 = Ok () /\
  whole.2 !! "restored.fasta" = Some (File (utf8_encode (str_of ">h
CG
"))) /\
  cut.1 = Ok () /\
  cut.2 !! "restored.fasta" = Some (File (utf8_encode (str_of ">h
GA
"))).
Proof.
  split_and!; vm_compute; reflexivity.
Qed.

(** ** The reader on a header line followed by wrapped bases *)

Lemma readlines_concat (s : str) : concat (readlines s) = s.
Proof.
  induction s as [|c rest IH]; [done|].
  cbn [readlines]. case_decide as Hc.
  - subst c. simpl. by rewrite IH.
  - destruct (readlines rest) as [|l ls]; simpl in *; by rewrite <- IH.
Qed.

Lemma readlines_first_line (h body : str) :
  LF ∉ h -> readlines (h ++ LF :: body) = (h ++ [LF]) :: readlines body.
Proof.
  induction h as [|c h IH]; intros Hh.
  - done.
  - apply not_elem_of_cons in Hh as [Hc Hh].
    rewrite <- app_comm_cons. cbn [readlines].
    rewrite decide_False by done. by rewrite IH.
Qed.

Section Filters.

Context (P : ascii -> Prop) `{!forall c, Decision (P c)}.
Hypothesis P_not_space : forall c, is_space c = true -> ~ P c.

Lemma filter_lstrip (l : str) : filter P (lstrip l) = filter P l.
Proof.
  induction l as [|c l IH]; [done|].
  simpl. destruct (is_space c) eqn:Hc; [|done].
  rewrite IH, filter_cons, decide_False; [done|by apply P_not_space].
Qed.

Lemma filter_strip (l : str) : filter P (strip l) = filter P l.
Proof.
  unfold strip.
  by rewrite filter_reverse, filter_lstrip, filter_reverse, reverse_involutive,
    filter_lstrip.
Qed.

End Filters.

Lemma Forall_lstrip (Q : ascii -> Prop) (l : str) : Forall Q l -> Forall Q (lstrip l).
Proof.
  induction 1 as [|c l Hc Hl IH]; [done|].
  simpl. destruct (is_space c); [done|by constructor].
Qed.

Lemma Forall_strip (Q : ascii -> Prop) (l : str) : Forall Q l -> Forall Q (strip l).
Proof.
  intros Hl. unfold strip.
  by apply Forall_reverse, Forall_lstrip, Forall_reverse, Forall_lstrip.
Qed.

Lemma base_cases (c : ascii) :
  c ∈ DNA_ALPHABET -> c = "A"%char \/ c = "C"%char \/ c = "G"%char \/ c = "T"%char.
Proof.
  unfold DNA_ALPHABET. simpl. rewrite !elem_of_cons, elem_of_nil. tauto.
Qed.

Lemma base_is_Some (c : ascii) : c ∈ DNA_ALPHABET <-> is_Some (BASE_TO_INDEX c).
Proof.
  split.
  - intros [-> | [-> | [-> | ->]]]%base_cases; by eexists.
  - intros [i Hi]. apply BASE_TO_INDEX_inv in Hi as [Hi _].
    unfold INDEX_TO_BASE in Hi. by eapply list_elem_of_lookup_2.
Qed.

Lemma base_not_space (c : ascii) : is_space c = true -> ~ is_Some (BASE_TO_INDEX c).
Proof.
  intros Hs [-> | [-> | [-> | ->]]]%base_is_Some%base_cases; discriminate Hs.
Qed.

Lemma upper_base_or_LF (l : str) : Forall base_or_LF l -> upper l = l.
Proof.
  induction 1 as [|c l Hc _ IH]; [done|].
  unfold upper in *. rewrite fmap_cons, IH. f_equal.
  destruct Hc as [-> | [-> | [-> | [-> | ->]]]%base_cases]; reflexivity.
Qed.

Lemma filter_base_or_LF (l : str) :
  Forall base_or_LF l ->
  filter (fun c => is_Some (BASE_TO_INDEX c)) l = filter (fun c => c ≠ LF) l.
Proof.
  induction 1 as [|c l Hc _ IH]; [done|].
  rewrite !filter_cons, IH.
  destruct Hc as [-> | Hc].
  - rewrite decide_False by (by apply base_not_space).
    by rewrite decide_False by (intros Hne; by apply Hne).
  - rewrite decide_True by (by apply base_is_Some).
    rewrite decide_True; [done|].
    intros ->. by apply base_cases in Hc as [Hc | [Hc | [Hc | Hc]]].
Qed.

(** One sequence line yields its bases. *)
Lemma sequence_line_bases (line : str) :
  Forall base_or_LF line ->
  (if startswith_gt line then []
   else BASE <$> filter (fun c => is_Some (BASE_TO_INDEX c)) (upper (strip line)))
  = BASE <$> filter (fun c => c ≠ LF) line.
Proof.
  intros Hline.
  assert (Hgt : startswith_gt line = false).
  { destruct Hline as [|c l Hc _]; [done|]. simpl.
    apply bool_decide_eq_false_2.
    destruct Hc as [-> | [-> | [-> | [-> | ->]]]%base_cases]; discriminate. }
  rewrite Hgt, upper_base_or_LF by (by apply Forall_strip).
  rewrite (filter_strip _ base_not_space).
  by rewrite filter_base_or_LF.
Qed.

Lemma sequence_lines_bases (lines : list str) :
  Forall (Forall base_or_LF) lines ->
  sequence_lines lines = BASE <$> filter (fun c => c ≠ LF) (concat lines).
Proof.
  unfold sequence_lines.
  induction 1 as [|line lines Hline _ IH]; [done|].
  rewrite bind_cons, IH, sequence_line_bases by done.
  simpl. by rewrite filter_app, fmap_app.
Qed.

Lemma strip_header_line (h : str) :
  startswith_gt h = true -> strip (h ++ [LF]) = strip h.
Proof.
  destruct h as [|c h]; [done|]. simpl. intros ->%bool_decide_eq_true_1.
  unfold strip. cbn [lstrip app].
  change (is_space ">") with false. cbv iota.
  change (">"%char :: h ++ [LF]) with ((">"%char :: h) ++ [LF]).
  by rewrite reverse_snoc.
Qed.

Lemma collect_bases (S : list ascii) : forall header sequence,
  collect (BASE <$> S) header sequence = (header, sequence ++ S).
Proof.
  induction S as [|b S IH]; intros header sequence; simpl.
  - by rewrite app_nil_r.
  - by rewrite IH, <- app_assoc.
Qed.


(** ** Pass 1, pass 2 and the decode loop *)

Section Passes.

Context `{AnsCoder} `{!AnsCoderLaws H}.



End Passes.

(** ** UTF-8 *)

Lemma utf8_decode_char (c : ascii) (rest : list byte) :
  utf8_decode (utf8_encode [c] ++ rest) = cons c <$> utf8_decode rest.
Proof.
  destruct c as [[] [] [] [] [] [] [] []]; reflexivity.
Qed.

(** Decoding undoes encoding. *)
Lemma utf8_decode_encode (s : str) : utf8_decode (utf8_encode s) = Some s.
Proof.
  induction s as [|c s IH]; [done|].
  change (c :: s) with ([c] ++ s).
  by rewrite utf8_encode_app, utf8_decode_char, IH.
Qed.

(** ** The reference coder obeys the laws *)

Lemma stack_coder_of_to (s : StackCoder.sym) : StackCoder.of_N (StackCoder.to_N s) = Some s.
Proof. by destruct s. Qed.

Lemma stack_coder_to_of (n : N) (s : StackCoder.sym) :
  StackCoder.of_N n = Some s -> StackCoder.to_N s = n.
Proof.
  destruct n as [|[[[]|[]|]|[[]|[]|]|]]; simpl; intros [= <-]; done.
Qed.

Lemma rev_is_reverse {A} (l : list A) : rev l = reverse l.
Proof. apply rev_alt. Qed.

#[export] Instance stack_coder_laws : AnsCoderLaws StackCoder.stack_coder.
Proof.
  split.
  - intros c w. simpl. intros (s & -> & _)%list_elem_of_fmap.
    by destruct s.
  - intros c. simpl. rewrite !rev_is_reverse, <- fmap_reverse, reverse_involutive.
    apply mapM_Some. induction c as [|s c IH]; simpl; constructor; [|done].
    apply stack_coder_of_to.
  - intros c s counts Hlen Hcounts Hs. simpl. unfold StackCoder.push.
    assert (Hp : length (probabilities_of counts) = length counts)
      by (unfold probabilities_of; apply length_fmap).
    rewrite decide_True by (rewrite Hp; done).
    rewrite Hlen in Hs. simpl in Hs.
    assert (Hcases : s = 0 \/ s = 1 \/ s = 2 \/ s = 3) by lia.
    destruct Hcases as [-> | [-> | [-> | ->]]]; by eexists.
  - intros c c' s p. simpl. unfold StackCoder.push.
    case_decide; [|done].
    destruct (StackCoder.of_N s) as [x|] eqn:Hx; [|done].
    intros [= <-]. simpl. by rewrite (stack_coder_to_of _ _ Hx).
Qed.

(** ** Round trip *)

Section RoundTrip.

Context `{AnsCoder} `{!AnsCoderLaws H}.
Variable bo : endian.

(** [decompress_file] parses what [compress_file] wrote. *)
Lemma read_container_written (σ : fs) (path : string) (n : N) (header : str)
    (words : list N) (b8 b2 : list byte) :
  to_bytes 8 big n = Ok b8 ->
  to_bytes 2 big (N.of_nat (length (utf8_encode header))) = Ok b2 ->
  Forall (fun w => w < UINT32_MOD) words ->
  σ !! path = Some (File (b8 ++ b2 ++ utf8_encode header ++ tobytes bo words)) ->
  read_container bo path σ = (Ok (n, header, words), σ).
Proof.
  intros [Hl8 Hf8]%from_bytes_to_bytes [Hl2 Hf2]%from_bytes_to_bytes Hwords Hp.
  unfold read_container, except_FileNotFoundError_exit, bind at 1, open_read.
  rewrite Hp. cbv beta iota.
  rewrite (take_app_length' _ _ 8) by done.
  rewrite (drop_app_length' _ _ 8) by done.
  rewrite (take_app_length' _ _ 2) by done.
  rewrite Hf8, Hf2, Nat2N.id.
  assert (H10 : forall k X, drop (10 + k) (b8 ++ b2 ++ X) = drop k X).
  { intros k X. rewrite app_assoc.
    replace (10 + k)%nat with (length (b8 ++ b2) + k)%nat
      by (rewrite length_app; lia).
    by rewrite drop_app_add. }
  rewrite <- (Nat.add_0_r 10) at 1. rewrite !H10. rewrite drop_0.
  rewrite take_app_length, drop_app_length.
  unfold bind at 1, lift at 1. rewrite utf8_decode_encode. cbn [of_option].
  unfold bind at 1, lift at 1. by rewrite frombuffer_tobytes.
Qed.

(** *** C1 *)


End RoundTrip.



(** * Further properties of the code *)

(** ** The reader *)

Lemma lstrip_app_nonspace (x y : str) (c : ascii) :
  is_space c = false -> lstrip (x ++ c :: y) = lstrip x ++ c :: y.
Proof.
  intros Hc. induction x as [|a x IH]; simpl.
  - by rewrite Hc.
  - destruct (is_space a); [exact IH|done].
Qed.

(** Stripping keeps the [>] that starts a header line. *)
Lemma strip_keeps_gt (line : str) :
  startswith_gt line = true -> startswith_gt (strip line) = true.
Proof.
  destruct line as [|c t]; [done|]. simpl. intros ->%bool_decide_eq_true_1.
  unfold strip. cbn [lstrip]. change (is_space ">") with false. cbv iota.
  rewrite reverse_cons, lstrip_app_nonspace by done.
  by rewrite reverse_snoc.
Qed.

Lemma header_search_shape (lines : list str) :
  header_search lines = ([], []) \/
  exists line rest, header_search lines = ([HEADER (strip line)], rest) /\
                    startswith_gt line = true.
Proof.
  induction lines as [|line lines IH]; [by left|].
  simpl. destruct (startswith_gt line) eqn:Hgt; [|exact IH].
  right. by exists line, lines.
Qed.

Lemma sequence_lines_alphabet (lines : list str) :
  exists S, sequence_lines lines = BASE <$> S /\ Forall (fun c => c ∈ DNA_ALPHABET) S.
Proof.
  unfold sequence_lines. induction lines as [|line lines (S & HS & Hall)].
  - by exists [].
  - rewrite bind_cons, HS. destruct (startswith_gt line).
    + by exists S.
    + eexists (_ ++ S). rewrite fmap_app. split; [done|].
      apply Forall_app. split; [|done].
      apply Forall_forall. intros c [Hc _]%list_elem_of_filter.
      by apply base_is_Some.
Qed.

(** X1.  Whatever the file holds, the generator yields either nothing, or one
    header followed only by bases: the header is yielded first and once, it
    starts with [>], and every base is a letter of the alphabet. *)
Theorem reader_yields_header_then_bases (σ σ' : fs) (filepath : string)
    (items : list item) :
  read_fasta_sequence_and_header filepath σ = (Ok items, σ') ->
  items = [] \/
  exists header S,
    items = HEADER header :: (BASE <$> S) /\
    startswith_gt header = true /\
    Forall (fun c => c ∈ DNA_ALPHABET) S.
Proof.
  unfold read_fasta_sequence_and_header, except_FileNotFoundError_exit, bind.
  destruct (open_read_text filepath σ) as [[text|e|c] σ0]; [|by destruct e|done].
  destruct (header_search_shape (readlines text)) as [->|(line & rest & -> & Hgt)].
  - intros [= <- _]. by left.
  - intros [= <- _]. right.
    destruct (sequence_lines_alphabet rest) as (S & -> & HS).
    exists (strip line), S. split_and!; [done| |done].
    by apply strip_keeps_gt.
Qed.

Lemma reader_yields_header_then_bases_witness :
  let σ : fs := {[ "in.fasta" := File (utf8_encode (str_of "junk
>id 1
acgtn
>id 2
TT-A
")) ]} in
  [HEADER (str_of ">id 1"); BASE "A"; BASE "C"; BASE "G"; BASE "T";
   BASE "T"; BASE "T"; BASE "A"]%char = [] \/
  exists header S,
    [HEADER (str_of ">id 1"); BASE "A"; BASE "C"; BASE "G"; BASE "T";
     BASE "T"; BASE "T"; BASE "A"]%char = HEADER header :: (BASE <$> S) /\
    startswith_gt header = true /\
    Forall (fun c => c ∈ DNA_ALPHABET) S.
Proof.
  intros σ.
  apply (reader_yields_header_then_bases σ σ "in.fasta").
  vm_compute. reflexivity.
Defined.

Lemma filter_fmap_comm {A B} (f : A -> B) (P : B -> Prop) `{!forall b, Decision (P b)}
    (l : list A) :
  filter P (f <$> l) = f <$> filter (fun a => P (f a)) l.
Proof.
  induction l as [|a l IH]; [done|].
  rewrite fmap_cons, !filter_cons, IH. by case_decide.
Qed.

Lemma upper_space_not_base (c : ascii) :
  is_space c = true -> ~ is_Some (BASE_TO_INDEX (upper_char c)).
Proof.
  destruct c as [[] [] [] [] [] [] [] []]; intros Hs; vm_compute in Hs;
    try discriminate Hs; intros [i Hi]; vm_compute in Hi; discriminate Hi.
Qed.

(** Stripping a line does not change the bases read from it. *)
Lemma bases_of_stripped_line (line : str) :
  filter (fun c => is_Some (BASE_TO_INDEX c)) (upper (strip line))
  = filter (fun c => is_Some (BASE_TO_INDEX c)) (upper line).
Proof.
  unfold upper. rewrite !filter_fmap_comm. f_equal.
  apply (filter_strip (fun c => is_Some (BASE_TO_INDEX (upper_char c)))).
  apply upper_space_not_base.
Qed.

Lemma sequence_lines_concat (lines : list str) :
  sequence_lines lines
  = BASE <$> filter (fun c => is_Some (BASE_TO_INDEX c))
               (upper (concat (filter (fun line => startswith_gt line = false) lines))).
Proof.
  unfold sequence_lines. induction lines as [|line lines IH]; [done|].
  rewrite bind_cons, IH, filter_cons. destruct (startswith_gt line) eqn:Hgt.
  - by rewrite decide_False by done.
  - rewrite decide_True by done. simpl concat.
    unfold upper at 3. rewrite fmap_app, filter_app, fmap_app.
    by rewrite bases_of_stripped_line.
Qed.

(** X2.  On a text that begins with a header line, the sequence read is
    made of the alphabet letters, after upper-casing, of all the later
    lines that do not start with [>], in file order: line breaks, blanks
    and every other character are dropped, and later [>] lines are skipped
    whole, so several records merge into one sequence under the first
    header. *)
Theorem reader_merges_records (σ : fs) (filepath : string) (header_line body : str) :
  open_read_text filepath σ = (Ok (header_line ++ LF :: body), σ) ->
  startswith_gt header_line = true ->
  LF ∉ header_line ->
  read_fasta_sequence_and_header filepath σ
  = (Ok (HEADER (strip header_line) ::
         (BASE <$> filter (fun c => is_Some (BASE_TO_INDEX c))
            (upper (concat (filter (fun line => startswith_gt line = false)
                              (readlines body)))))), σ).
Proof.
  intros Htext Hgt Hlf.
  unfold read_fasta_sequence_and_header, except_FileNotFoundError_exit, bind.
  rewrite Htext, readlines_first_line by done.
  cbn [header_search].
  assert (Hgt' : startswith_gt (header_line ++ [LF]) = true)
    by (destruct header_line; done).
  rewrite Hgt', strip_header_line by done.
  unfold ret. simpl. by rewrite sequence_lines_concat.
Qed.

Lemma reader_merges_records_witness :
  let σ : fs := {[ "two.fasta" := File (utf8_encode (str_of ">rec1 first
acgt nn
>rec2 second
  TTxA
")) ]} in
  read_fasta_sequence_and_header "two.fasta" σ
  = (Ok (HEADER (strip (str_of ">rec1 first")) ::
         (BASE <$> filter (fun c => is_Some (BASE_TO_INDEX c))
            (upper (concat (filter (fun line => startswith_gt line = false)
                              (readlines (str_of "acgt nn
>rec2 second
  TTxA
"))))))), σ).
Proof.
  intros σ.
  apply (reader_merges_records σ "two.fasta" (str_of ">rec1 first")).
  - vm_compute. reflexivity.
  - reflexivity.
  - apply (bool_decide_unpack _). vm_compute. exact I.
Defined.

Lemma readlines_nonempty (s : str) : s ≠ [] -> readlines s ≠ [].
Proof.
  destruct s as [|c s]; [done|]. intros _. cbn [readlines].
  case_decide; [done|]. by destruct (readlines s).
Qed.

(** Lines that end before a text are read on their own. *)
Lemma readlines_app_LF (p t : str) :
  readlines ((p ++ [LF]) ++ t) = readlines (p ++ [LF]) ++ readlines t.
Proof.
  induction p as [|c p IH]; [done|].
  rewrite <- !app_comm_cons. cbn [readlines]. case_decide.
  - by rewrite IH.
  - rewrite IH.
    pose proof (readlines_nonempty (p ++ [LF])) as Hne.
    destruct (readlines (p ++ [LF])); [|done].
    exfalso. apply Hne; [|done]. by destruct p.
Qed.

Lemma header_search_skips (skipped lines : list str) :
  Forall (fun line => startswith_gt line = false) skipped ->
  header_search (skipped ++ lines) = header_search lines.
Proof.
  induction 1 as [|line skipped Hline _ IH]; [done|].
  simpl. by rewrite Hline.
Qed.

(** X3.  Whole lines that precede the first [>] line are discarded, bases
    included: the generator yields the same items as for the file without
    them. *)
Theorem reader_discards_lines_before_header (σ1 σ2 : fs) (path1 path2 : string)
    (before text : str) :
  open_read_text path1 σ1 = (Ok ((before ++ [LF]) ++ text), σ1) ->
  open_read_text path2 σ2 = (Ok text, σ2) ->
  Forall (fun line => startswith_gt line = false) (readlines (before ++ [LF])) ->
  (read_fasta_sequence_and_header path1 σ1).1
  = (read_fasta_sequence_and_header path2 σ2).1.
Proof.
  intros H1 H2 Hbefore.
  unfold read_fasta_sequence_and_header, except_FileNotFoundError_exit, bind.
  rewrite H1, H2, readlines_app_LF, header_search_skips by done.
  by destruct (header_search (readlines text)).
Qed.

Lemma reader_discards_lines_before_header_witness :
  let σ : fs := {[ "a.fasta" := File (utf8_encode (str_of "ACGT
TTTT
>h
GG
"));
                   "b.fasta" := File (utf8_encode (str_of ">h
GG
")) ]} in
  (read_fasta_sequence_and_header "a.fasta" σ).1
  = (read_fasta_sequence_and_header "b.fasta" σ).1.
Proof.
  intros σ.
  apply (reader_discards_lines_before_header σ σ "a.fasta" "b.fasta"
           (str_of "ACGT
TTTT") (str_of ">h
GG
")).
  - vm_compute. reflexivity.
  - vm_compute. reflexivity.
  - vm_compute. repeat constructor.
Defined.

(** ** The integrity check of [eval.py] *)

Lemma sequence_lines_payload (lines : list str) :
  sequence_lines lines
  = BASE <$> (lines ≫= (fun line =>
      if startswith_gt line then []
      else filter (fun c => c ∈ str_of "ACGT") (upper (strip line)))).
Proof.
  unfold sequence_lines. induction lines as [|line lines IH]; [done|].
  rewrite !bind_cons, fmap_app, IH. f_equal.
  destruct (startswith_gt line); [done|]. f_equal.
  apply list_filter_iff. intros c. symmetry. apply base_is_Some.
Qed.

(** X4.  On a file that begins with a header line, [get_dna_payload]
    returns exactly the sequence that the generator yields, the one
    [compress_file] encodes. *)
Theorem payload_is_the_sequence_read (σ : fs) (filepath : string)
    (header_line body : str) :
  open_read_text filepath σ = (Ok (header_line ++ LF :: body), σ) ->
  startswith_gt header_line = true ->
  LF ∉ header_line ->
  exists payload,
    get_dna_payload filepath σ = (Ok (Some payload), σ) /\
    read_fasta_sequence_and_header filepath σ
      = (Ok (HEADER (strip header_line) :: (BASE <$> payload)), σ).
Proof.
  intros Htext Hgt Hlf.
  assert (Hgt' : startswith_gt (header_line ++ [LF]) = true)
    by (destruct header_line; done).
  eexists. split.
  - unfold get_dna_payload. rewrite Htext, readlines_first_line by done.
    rewrite bind_cons, Hgt'. reflexivity.
  - unfold read_fasta_sequence_and_header, except_FileNotFoundError_exit, bind.
    rewrite Htext, readlines_first_line by done.
    cbn [header_search]. rewrite Hgt', strip_header_line by done.
    unfold ret. simpl. by rewrite sequence_lines_payload.
Qed.

Lemma payload_is_the_sequence_read_witness :
  let σ : fs := {[ "in.fasta" := File (utf8_encode (str_of ">sample1
ACGTacg
>again
tac
")) ]} in
  exists payload,
    get_dna_payload "in.fasta" σ = (Ok (Some payload), σ) /\
    read_fasta_sequence_and_header "in.fasta" σ
      = (Ok (HEADER (strip (str_of ">sample1")) :: (BASE <$> payload)), σ).
Proof.
  intros σ.
  apply (payload_is_the_sequence_read σ "in.fasta" (str_of ">sample1") (str_of "ACGTacg
>again
tac
")).
  - vm_compute. reflexivity.
  - reflexivity.
  - apply (bool_decide_unpack _). vm_compute. exact I.
Defined.

(** ** The context model inside the two loops *)

(** X5.  A context that is not in the table yet gets a row of ones and
    the uniform distribution: each of the four probabilities is exactly
    0.25. *)
Theorem new_context_is_uniform (cm : ContextModel) (context : str) :
  alphabet_size cm = 4%nat ->
  model cm !! context = None ->
  get_probabilities cm context
  = ([0.25; 0.25; 0.25; 0.25]%float,
     with_model cm (<[context := [1; 1; 1; 1]]> (model cm))).
Proof.
  intros Ha Hnew. unfold get_probabilities, _get_or_create_context.
  rewrite Hnew, Ha. reflexivity.
Qed.

Lemma new_context_is_uniform_witness :
  get_probabilities (ContextModel_init CONTEXT_LENGTH 4) (str_of "NNNNNNNNNN")
  = ([0.25; 0.25; 0.25; 0.25]%float,
     with_model (ContextModel_init CONTEXT_LENGTH 4)
       (<[str_of "NNNNNNNNNN" := [1; 1; 1; 1]]> (model (ContextModel_init CONTEXT_LENGTH 4)))).
Proof.
  apply (new_context_is_uniform (ContextModel_init CONTEXT_LENGTH 4) (str_of "NNNNNNNNNN"));
    reflexivity.
Defined.


Lemma deque_append_full (q : list ascii) (x : ascii) :
  length q = CONTEXT_LENGTH -> deque_append CONTEXT_LENGTH q x = drop 1 (q ++ [x]).
Proof.
  intros Hq. unfold deque_append. f_equal. rewrite length_app, Hq. simpl. lia.
Qed.

Lemma pass1_window (S : list ascii) : forall cm q acc cm' q' sts,
  length q = CONTEXT_LENGTH ->
  pass1 S cm q acc = Ok (cm', q', sts) ->
  q' = drop (length S) (q ++ S).
Proof.
  induction S as [|b S IH]; intros cm q acc cm' q' sts Hq Hpass.
  - injection Hpass as _ <- _. by rewrite app_nil_r.
  - cbn [pass1] in Hpass.
    destruct (get_probabilities cm (join q)) as [p cm1].
    destruct (BASE_TO_INDEX b) as [i|]; [|done].
    destruct (update cm1 (join q) i) as [cm2|e|c]; [|done|done].
    apply IH in Hpass.
    + rewrite Hpass, deque_append_full by done.
      replace (q ++ b :: S) with ((q ++ [b]) ++ S) by (by rewrite <- app_assoc).
      change (length (b :: S)) with (1 + length S)%nat.
      rewrite <- drop_drop. f_equal.
      rewrite (drop_app_le (q ++ [b]) S 1); [done|]. rewrite length_app. simpl. lia.
    + rewrite deque_append_full by done.
      rewrite length_drop, length_app, Hq. unfold CONTEXT_LENGTH. simpl. lia.
Qed.

(** X7.  The context window is a sliding window of [CONTEXT_LENGTH]
    symbols: after pass 1 has processed a sequence, the window holds the
    last ten symbols of the padding [NNNNNNNNNN] followed by the
    sequence. *)
Theorem context_is_last_ten_symbols (S : list ascii) (cm' : ContextModel)
    (q' : list ascii) (sts : list (N * list float)) :
  pass1 S (ContextModel_init CONTEXT_LENGTH (length DNA_ALPHABET))
        (replicate CONTEXT_LENGTH "N"%char) [] = Ok (cm', q', sts) ->
  q' = drop (length S) (replicate CONTEXT_LENGTH "N"%char ++ S) /\
  length q' = CONTEXT_LENGTH.
Proof.
  intros Hpass. apply pass1_window in Hpass; [|done].
  split; [done|]. rewrite Hpass, length_drop, length_app, length_replicate. lia.
Qed.

Lemma context_is_last_ten_symbols_witness :
  str_of "NNNNNNNACG" = drop (length (str_of "ACG"))
                            (replicate CONTEXT_LENGTH "N"%char ++ str_of "ACG") /\
  length (str_of "NNNNNNNACG") = CONTEXT_LENGTH.
Proof.
  eapply (context_is_last_ten_symbols (str_of "ACG")).
  vm_compute. reflexivity.
Defined.

(** ** Lookups in the two loops *)

Lemma pass1_total (S : list ascii) : forall cm q acc,
  Forall (fun c => c ∈ DNA_ALPHABET) S -> rows_wf cm ->
  exists cm' q' sts,
    pass1 S cm q acc = Ok (cm', q', acc ++ sts) /\ length sts = length S.
Proof.
  induction S as [|b S IH]; intros cm q acc Hbases Hwf.
  - exists cm, q, []. by rewrite app_nil_r.
  - apply Forall_cons in Hbases as [Hb Hbases].
    apply base_is_Some in Hb as [i Hi].
    pose proof (BASE_TO_INDEX_inv _ _ Hi) as [_ Hi4].
    destruct (update_defined cm (join q) i Hwf Hi4) as (cm2 & Hup & Hwf2).
    destruct (IH cm2 (deque_append CONTEXT_LENGTH q b)
                (acc ++ [(i, (get_probabilities cm (join q)).1)]) Hbases Hwf2)
      as (cm' & q' & sts & Hpass & Hlen).
    exists cm', q', ((i, (get_probabilities cm (join q)).1) :: sts).
    split; [|simpl; by rewrite Hlen].
    cbn [pass1].
    rewrite (surjective_pairing (get_probabilities cm (join q))), Hi, Hup, Hpass.
    by rewrite <- app_assoc.
Qed.

Lemma pass1_Ok_alphabet (S : list ascii) : forall cm q acc st,
  pass1 S cm q acc = Ok st -> Forall (fun c => c ∈ DNA_ALPHABET) S.
Proof.
  induction S as [|b S IH]; intros cm q acc st Hpass; [done|].
  cbn [pass1] in Hpass.
  destruct (get_probabilities cm (join q)) as [p cm1].
  destruct (BASE_TO_INDEX b) as [i|] eqn:Hi; [|done].
  destruct (update cm1 (join q) i) as [cm2|e|c]; [|done|done].
  constructor; [|by eapply IH].
  apply base_is_Some. by exists i.
Qed.

Lemma open_read_text_errors path σ e σ' :
  open_read_text path σ = (Raise e, σ') ->
  e = FileNotFoundError \/ e = PermissionError \/ e = UnicodeDecodeError.
Proof.
  unfold open_read_text, bind, open_read, lift, ret.
  destruct (σ !! path) as [[data|]|]; [|naive_solver..].
  destruct (utf8_decode data); simpl; naive_solver.
Qed.

Lemma read_fasta_errors path σ e σ' :
  read_fasta_sequence_and_header path σ = (Raise e, σ') ->
  e = PermissionError \/ e = UnicodeDecodeError.
Proof.
  unfold read_fasta_sequence_and_header, except_FileNotFoundError_exit, bind.
  destruct (open_read_text path σ) as [[text|e0|c] σ0] eqn:Htext.
  - by destruct (header_search (readlines text)).
  - apply open_read_text_errors in Htext as [-> | [-> | ->]]; naive_solver.
  - done.
Qed.

Lemma collect_shape (items : list item) :
  items = [] \/ (exists header S, items = HEADER header :: (BASE <$> S) /\
                                  Forall (fun c => c ∈ DNA_ALPHABET) S) ->
  Forall (fun c => c ∈ DNA_ALPHABET) (collect items [] []).2.
Proof.
  intros [->|(header & S & -> & HS)]; [done|].
  cbn [collect]. by rewrite collect_bases.
Qed.

Lemma read_fasta_sequence_alphabet path σ items σ' :
  read_fasta_sequence_and_header path σ = (Ok items, σ') ->
  Forall (fun c => c ∈ DNA_ALPHABET) (collect items [] []).2.
Proof.
  intros Hread. apply collect_shape.
  revert Hread.
  unfold read_fasta_sequence_and_header, except_FileNotFoundError_exit, bind.
  destruct (open_read_text path σ) as [[text|e|c] σ0]; [|by destruct e|done].
  destruct (header_search_shape (readlines text)) as [->|(line & rest & -> & Hgt)].
  - intros [= <- _]. by left.
  - intros [= <- _]. right.
    destruct (sequence_lines_alphabet rest) as (S & -> & HS). by exists (strip line), S.
Qed.

Section Lookups.

Context `{AnsCoder}.
Variable bo : endian.

Lemma pass2_errors (states : list (N * list float)) (e : exn) :
  pass2 states = Raise e -> e = CoderError.
Proof.
  unfold pass2.
  assert (Henc : forall l (c : coder) e', encode_states l c = Raise e' -> e' = CoderError).
  { induction l as [|[s p] l IH]; intros c e'; simpl; [done|].
    destruct (encode_reverse c s p); [apply IH|by intros [= <-]]. }
  destruct (encode_states (rev states) coder_new) eqn:E; [done| |done].
  intros [= <-]. by eapply Henc.
Qed.

Lemma decode_loop_errors (n : nat) : forall cm decoder q acc e,
  rows_wf cm ->
  decode_loop n cm decoder q acc = Raise e -> e = CoderError \/ e = IndexError.
Proof.
  induction n as [|n IH]; intros cm decoder q acc e Hwf; [done|].
  cbn [decode_loop].
  pose proof (get_or_create_wf cm (join q) Hwf) as [Hwf1 Hlen].
  pose proof (get_or_create_idem cm (join q)) as Hidem.
  unfold get_probabilities.
  destruct (_get_or_create_context cm (join q)) as [row cm1]. simpl in *.
  destruct (decode decoder (probabilities_of row)) as [[s decoder']|]; [|naive_solver].
  destruct (update cm1 (join q) s) as [cm2|e0|c] eqn:Hup.
  - pose proof Hup as Hup'.
    apply update_Ok in Hup' as (c & Hc & Ha & Hsame & Hother).
    rewrite Hidem in Hc, Hsame. simpl in Hc, Hsame.
    assert (Hs : (N.to_nat s < 4)%nat).
    { apply lookup_lt_Some in Hc. by rewrite Hlen in Hc. }
    destruct (INDEX_TO_BASE s) as [b|] eqn:Hb.
    + apply IH. destruct Hwf1 as [Ha1 Hrows1]. split; [congruence|].
      intros context' row'. destruct (decide (join q = context')) as [<-|Hne].
      * rewrite Hsame. intros [= <-]. by rewrite length_insert.
      * rewrite Hother by done. apply Hrows1.
    + exfalso. unfold INDEX_TO_BASE in Hb. apply lookup_ge_None in Hb.
      simpl in Hb. lia.
  - unfold update in Hup. rewrite Hidem in Hup.
    destruct (row !! N.to_nat s); [done|]. injection Hup as <-. naive_solver.
  - unfold update in Hup. rewrite Hidem in Hup.
    by destruct (row !! N.to_nat s).
Qed.

(** X8.  The table lookups of the two loops cannot fail the way a
    dictionary or an array lookup can.  In [compress_file],
    [BASE_TO_INDEX[base]] never raises [KeyError] and
    [counts[symbol_index]] never raises [IndexError], because the
    generator only yields letters of the alphabet.  In [decompress_file],
    [INDEX_TO_BASE[symbol_index]] never raises [KeyError]: a decoded index
    outside the alphabet has already raised [IndexError] in
    [model.update]. *)
Theorem lookups_never_fail (σ : fs) (input_path output_path : string) :
  (compress_file bo input_path output_path σ).1 ≠ Raise KeyError /\
  (compress_file bo input_path output_path σ).1 ≠ Raise IndexError /\
  (decompress_file bo input_path output_path σ).1 ≠ Raise KeyError.
Proof.
  assert (Hcompress : forall e, (compress_file bo input_path output_path σ).1 = Raise e ->
            e = PermissionError \/ e = UnicodeDecodeError \/ e = CoderError \/
            e = OverflowError).
  { intros e. unfold compress_file. unfold bind at 1.
    destruct (read_fasta_sequence_and_header input_path σ) as [[items|e0|c] σ0] eqn:Hread.
    - pose proof (read_fasta_sequence_alphabet _ _ _ _ Hread) as Hbases.
      destruct (collect items [] []) as [header sequence]. simpl in Hbases.
      case_decide.
      + unfold bind, open_write, write.
        destruct (σ0 !! output_path) as [[]|]; simpl;
          rewrite ?lookup_insert_eq; simpl; naive_solver.
      + unfold bind at 1, lift at 1.
        destruct (pass1_total sequence
                    (ContextModel_init CONTEXT_LENGTH (length DNA_ALPHABET))
                    (replicate CONTEXT_LENGTH "N"%char) [] Hbases rows_wf_init)
          as (cm' & q' & sts & -> & _).
        unfold bind at 1, lift at 1.
        destruct (pass2 _) as [words|e1|c] eqn:Hpass2;
          [|apply pass2_errors in Hpass2; simpl; naive_solver|done].
        unfold bind at 1, open_write.
        destruct (σ0 !! output_path) as [[]|]; simpl; [|naive_solver|].
        all: unfold bind at 1, lift at 1, to_bytes at 1;
          destruct (_ <? _); [|simpl; naive_solver];
          unfold bind at 1, write at 1; rewrite lookup_insert_eq;
          unfold bind at 1, lift at 1, to_bytes at 1;
          destruct (_ <? _); [|simpl; naive_solver];
          unfold bind, write; rewrite !lookup_insert_eq; simpl; naive_solver.
    - simpl. intros [= <-]. apply read_fasta_errors in Hread as [-> | ->]; auto.
    - done. }
  assert (Hdecompress : forall e, (decompress_file bo input_path output_path σ).1 = Raise e ->
            e ≠ KeyError).
  { intros e. unfold decompress_file. unfold bind at 1.
    destruct (read_container bo input_path σ) as [[[[seq_len header] words]|e0|c] σ0] eqn:Hread.
    - case_decide.
      + unfold bind, open_write, write.
        destruct (σ0 !! output_path) as [[]|]; simpl;
          rewrite ?lookup_insert_eq; simpl; naive_solver.
      + unfold bind at 1, lift at 1.
        destruct (coder_from_compressed words) as [decoder|]; cbn [of_option];
          [|simpl; naive_solver].
        unfold bind at 1, lift at 1.
        destruct (decode_loop _ _ decoder _ []) as [st|e1|c] eqn:Hloop.
        * destruct (σ0 !! output_path) as [[]|] eqn:Hp.
          2: { unfold bind, open_write. rewrite Hp. simpl. naive_solver. }
          all: erewrite bind_Ok by (apply open_write_ok; congruence);
            rewrite (write_all_ok _ _ []) by (by rewrite lookup_insert_eq);
            done.
        * apply decode_loop_errors in Hloop as [-> | ->]; [| |apply rows_wf_init];
            simpl; by intros [= <-].
        * done.
    - simpl. intros [= <-]. revert Hread.
      unfold read_container, except_FileNotFoundError_exit, bind, open_read, lift, ret.
      destruct (σ !! input_path) as [[data|]|]; [|clear; naive_solver..].
      destruct (utf8_decode _); simpl; [|clear; naive_solver].
      unfold frombuffer. case_decide; simpl; clear; naive_solver.
    - done. }
  split_and!.
  - intros He. apply Hcompress in He as [He | [He | [He | He]]]; discriminate He.
  - intros He. apply Hcompress in He as [He | [He | [He | He]]]; discriminate He.
  - intros He. by apply Hdecompress in He.
Qed.

End Lookups.

(** ** What decompression writes *)

Section Restored.

Context `{AnsCoder}.
Variable bo : endian.

(** X9.  A decompression of a container of length [n > 0] that completes
    writes a sequence of exactly [n] symbols, every one of them a letter
    of the alphabet, whatever the code words were. *)
Theorem restored_sequence_over_alphabet (σ σ' : fs) (input_path output_path : string)
    (seq_len : N) (header : str) (compressed_data : list N) :
  read_container bo input_path σ = (Ok (seq_len, header, compressed_data), σ) ->
  seq_len ≠ 0 ->
  decompress_file bo input_path output_path σ = (Ok (), σ') ->
  exists restored : str,
    σ' !! output_path = Some (File (utf8_encode (concat (render header restored)))) /\
    length restored = N.to_nat seq_len /\
    Forall (fun c => c ∈ DNA_ALPHABET) restored.
Proof.
  intros Hread Hlen Hrun.
  rewrite (decompress_file_nonempty _ _ _ _ _ _ _ Hread Hlen) in Hrun.
  destruct (coder_from_compressed compressed_data) as [decoder|]; [|done].
  destruct (decode_loop _ _ decoder _ []) as [[[[cm' decoder'] q'] restored]|e|c] eqn:Hloop;
    [|done|done].
  apply decode_loop_pass1 in Hloop as (xs & Hxs & Hn & Hpass). simpl in Hxs. subst xs.
  destruct (Hpass []) as (st' & Hst'). apply pass1_Ok_alphabet in Hst'.
  exists restored. split_and!; [|done|done].
  cbn [snd] in Hrun.
  destruct (σ !! output_path) as [[]|]; [|done|];
    injection Hrun as <-; by rewrite lookup_insert_eq.
Qed.

End Restored.

Lemma restored_sequence_over_alphabet_witness :
  let σ : fs := {[ "any.bin" := File
       ([Byte.x00; Byte.x00; Byte.x00; Byte.x00; Byte.x00; Byte.x00; Byte.x00; Byte.x03;
         Byte.x00; Byte.x01; Byte.x3e;
         Byte.x03; Byte.x00; Byte.x00; Byte.x00]) ]} in
  let σ' := (decompress_file (H := StackCoder.stack_coder) little "any.bin" "restored.fasta" σ).2 in
  exists restored : str,
    σ' !! "restored.fasta"
      = Some (File (utf8_encode (concat (render (str_of ">") restored)))) /\
    length restored = N.to_nat 3 /\
    Forall (fun c => c ∈ DNA_ALPHABET) restored.
Proof.
  intros σ σ'.
  apply (restored_sequence_over_alphabet (H := StackCoder.stack_coder) little σ σ'
           "any.bin" "restored.fasta" 3 (str_of ">") [3]).
  - vm_compute. reflexivity.
  - discriminate.
  - vm_compute. reflexivity.
Defined.

(** ** The container *)

Section ContainerFacts.

Context `{AnsCoder} `{!AnsCoderLaws H}.
Variable bo : endian.

(** X10.  The fields [decompress_file] parses from the output of a
    completed non-empty compression are the fields [compress_file] wrote:
    the number of bases, the header and the code words of pass 2. *)
Theorem container_parses_back (σ σ' : fs) (input_path output_path : string)
    (items : list item) (header : str) (sequence : list ascii) :
  read_fasta_sequence_and_header input_path σ = (Ok items, σ) ->
  collect items [] [] = (header, sequence) ->
  sequence ≠ [] ->
  compress_file bo input_path output_path σ = (Ok (), σ') ->
  exists st compressed_data,
    pass1 sequence (ContextModel_init CONTEXT_LENGTH (length DNA_ALPHABET))
          (replicate CONTEXT_LENGTH "N"%char) [] = Ok st /\
    pass2 st.2 = Ok compressed_data /\
    read_container bo output_path σ'
      = (Ok (N.of_nat (length sequence), header, compressed_data), σ').
Proof.
  intros Hread Hcollect Hne Hrun.
  rewrite (compress_file_nonempty bo _ _ _ _ _ _ Hread Hcollect Hne) in Hrun.
  destruct (pass1 sequence _ _ []) as [st|e|c] eqn:Hpass1; [|done|done].
  destruct (pass2 st.2) as [words|e|c] eqn:Hpass2; [|done|done].
  destruct (to_bytes 8 big _) as [b8|e|c] eqn:Hb8;
    [|destruct (σ !! output_path) as [[]|]; done..].
  destruct (to_bytes 2 big _) as [b2|e|c] eqn:Hb2;
    [|destruct (σ !! output_path) as [[]|]; done..].
  exists st, words. split_and!; [done|done|].
  assert (Hσ' : σ' = <[output_path :=
                        File (b8 ++ b2 ++ utf8_encode header ++ tobytes bo words)]> σ).
  { destruct (σ !! output_path) as [[]|]; congruence. }
  subst σ'.
  eapply read_container_written; [exact Hb8|exact Hb2| |by rewrite lookup_insert_eq].
  unfold pass2 in Hpass2.
  destruct (encode_states (rev st.2) coder_new) as [c0|e|c]; [|done|done].
  injection Hpass2 as <-.
  apply Forall_forall. intros w Hw. by eapply get_compressed_uint32.
Qed.

End ContainerFacts.

Lemma container_parses_back_witness :
  let σ : fs := {[ "in.fasta" := File (utf8_encode (str_of ">sample1
ACGTACGTAC
")) ]} in
  let σ' := (compress_file (H := StackCoder.stack_coder) little "in.fasta" "out.bin" σ).2 in
  exists st compressed_data,
    pass1 (str_of "ACGTACGTAC") (ContextModel_init CONTEXT_LENGTH (length DNA_ALPHABET))
          (replicate CONTEXT_LENGTH "N"%char) [] = Ok st /\
    pass2 (H := StackCoder.stack_coder) st.2 = Ok compressed_data /\
    read_container little "out.bin" σ'
      = (Ok (N.of_nat (length (str_of "ACGTACGTAC")), str_of ">sample1", compressed_data), σ').
Proof.
  intros σ σ'.
  apply (container_parses_back (H := StackCoder.stack_coder) little σ σ'
           "in.fasta" "out.bin"
           (HEADER (str_of ">sample1") :: (BASE <$> str_of "ACGTACGTAC"))).
  - vm_compute. reflexivity.
  - reflexivity.
  - discriminate.
  - vm_compute. reflexivity.
Defined.

Section Summary.

Context `{AnsCoder}.
Variable bo : endian.

(** X11.  The size the summary computes, [len(compressed_data) * 4 + 10 +
    len(header_bytes)], is the size of the file a completed non-empty
    compression has written. *)
Theorem compressed_size_is_file_size (σ σ' : fs) (input_path output_path : string)
    (items : list item) (header : str) (sequence : list ascii) :
  read_fasta_sequence_and_header input_path σ = (Ok items, σ) ->
  collect items [] [] = (header, sequence) ->
  sequence ≠ [] ->
  compress_file bo input_path output_path σ = (Ok (), σ') ->
  exists st compressed_data data,
    pass1 sequence (ContextModel_init CONTEXT_LENGTH (length DNA_ALPHABET))
          (replicate CONTEXT_LENGTH "N"%char) [] = Ok st /\
    pass2 st.2 = Ok compressed_data /\
    σ' !! output_path = Some (File data) /\
    length data = compressed_size_bytes compressed_data (utf8_encode header).
Proof.
  intros Hread Hcollect Hne Hrun.
  rewrite (compress_file_nonempty bo _ _ _ _ _ _ Hread Hcollect Hne) in Hrun.
  destruct (pass1 sequence _ _ []) as [st|e|c] eqn:Hpass1; [|done|done].
  destruct (pass2 st.2) as [words|e|c] eqn:Hpass2; [|done|done].
  destruct (to_bytes 8 big _) as [b8|e|c] eqn:Hb8;
    [|destruct (σ !! output_path) as [[]|]; done..].
  destruct (to_bytes 2 big _) as [b2|e|c] eqn:Hb2;
    [|destruct (σ !! output_path) as [[]|]; done..].
  apply from_bytes_to_bytes in Hb8 as [Hl8 _].
  apply from_bytes_to_bytes in Hb2 as [Hl2 _].
  exists st, words, (b8 ++ b2 ++ utf8_encode header ++ tobytes bo words).
  split_and!; [done|done| |].
  - destruct (σ !! output_path) as [[]|]; [|done|];
      injection Hrun as <-; by rewrite lookup_insert_eq.
  - rewrite !length_app, length_tobytes, Hl8, Hl2. unfold compressed_size_bytes. lia.
Qed.

(** X12.  When the header has more than 65535 UTF-8 bytes, the
    compression of a non-empty sequence runs both passes, creates the
    output file, writes the 8 length bytes and then raises
    [OverflowError]: an 8-byte file is left at the output path. *)
Theorem long_header_leaves_partial_file (σ : fs) (input_path output_path : string)
    (items : list item) (header : str) (sequence : list ascii)
    (compressed_data : list N) :
  read_fasta_sequence_and_header input_path σ = (Ok items, σ) ->
  collect items [] [] = (header, sequence) ->
  sequence ≠ [] ->
  match pass1 sequence (ContextModel_init CONTEXT_LENGTH (length DNA_ALPHABET))
              (replicate CONTEXT_LENGTH "N"%char) [] with
  | Ok st => pass2 st.2
  | Raise e => Raise e
  | Exit c => Exit c
  end = Ok compressed_data ->
  N.of_nat (length sequence) < 2 ^ 64 ->
  65536 <= N.of_nat (length (utf8_encode header)) ->
  σ !! output_path ≠ Some NoAccess ->
  exists b8,
    length b8 = 8%nat /\ from_bytes big b8 = N.of_nat (length sequence) /\
    compress_file bo input_path output_path σ
      = (Raise OverflowError, <[output_path := File b8]> σ).
Proof.
  intros Hread Hcollect Hne Hpasses Hlen Hheader Hout.
  rewrite (compress_file_nonempty bo _ _ _ _ _ _ Hread Hcollect Hne).
  destruct (pass1 sequence _ _ []) as [st|e|c]; [|done|done].
  rewrite Hpasses.
  destruct (to_bytes_fits 8 big (N.of_nat (length sequence))) as (b8 & Hb8).
  { by change (256 ^ N.of_nat 8) with (2 ^ 64). }
  rewrite Hb8. exists b8.
  pose proof (from_bytes_to_bytes _ _ _ _ Hb8) as [Hl8 Hf8].
  split_and!; [done|done|].
  unfold to_bytes. change (256 ^ N.of_nat 2) with 65536.
  destruct (N.ltb_spec (N.of_nat (length (utf8_encode header))) 65536); [lia|].
  by destruct (σ !! output_path) as [[]|].
Qed.

End Summary.

Lemma compressed_size_is_file_size_witness :
  let σ : fs := {[ "in.fasta" := File (utf8_encode (str_of ">sample1
ACGTACGTAC
")) ]} in
  let σ' := (compress_file (H := StackCoder.stack_coder) little "in.fasta" "out.bin" σ).2 in
  exists st compressed_data data,
    pass1 (str_of "ACGTACGTAC") (ContextModel_init CONTEXT_LENGTH (length DNA_ALPHABET))
          (replicate CONTEXT_LENGTH "N"%char) [] = Ok st /\
    pass2 (H := StackCoder.stack_coder) st.2 = Ok compressed_data /\
    σ' !! "out.bin" = Some (File data) /\
    length data = compressed_size_bytes compressed_data (utf8_encode (str_of ">sample1")).
Proof.
  intros σ σ'.
  apply (compressed_size_is_file_size (H := StackCoder.stack_coder) little σ σ'
           "in.fasta" "out.bin"
           (HEADER (str_of ">sample1") :: (BASE <$> str_of "ACGTACGTAC"))).
  - vm_compute. reflexivity.
  - reflexivity.
  - discriminate.
  - vm_compute. reflexivity.
Defined.

Lemma long_header_leaves_partial_file_witness :
  let header := (">"%char :: replicate (N.to_nat 65535) "x"%char) in
  let σ : fs := {[ "in.fasta" := File (utf8_encode (header ++ str_of "
ACGT
")) ]} in
  exists b8,
    length b8 = 8%nat /\ from_bytes big b8 = N.of_nat (length (str_of "ACGT")) /\
    compress_file (H := StackCoder.stack_coder) little "in.fasta" "out.bin" σ
      = (Raise OverflowError, <["out.bin" := File b8]> σ).
Proof.
  intros header σ.
  apply (long_header_leaves_partial_file (H := StackCoder.stack_coder) little σ
           "in.fasta" "out.bin"
           (HEADER header :: (BASE <$> str_of "ACGT")) header (str_of "ACGT")
           [3; 2; 1; 0]).
  - reflexivity.
  - reflexivity.
  - discriminate.
  - vm_compute. reflexivity.
  - vm_compute. reflexivity.
  - vm_compute. discriminate.
  - vm_compute. discriminate.
Defined.

(** ** Paths other than the output path *)

Lemma touches_only_ret {A} path (a : A) : touches_only path (ret a).
Proof. intros σ σ' r [= _ <-]. done. Qed.

Lemma touches_only_lift {A} path (o : outcome A) : touches_only path (lift o).
Proof. intros σ σ' r [= _ <-]. done. Qed.

Lemma touches_only_bind {A B} path (m : M A) (k : A -> M B) :
  touches_only path m -> (forall a, touches_only path (k a)) ->
  touches_only path (bind m k).
Proof.
  intros Hm Hk σ σ' r. unfold bind.
  destruct (m σ) as [[a|e|c] σ0] eqn:E.
  - intros Hka p Hp. rewrite (Hk a _ _ _ Hka p Hp). by eapply Hm.
  - intros [= _ <-]. by eapply Hm.
  - intros [= _ <-]. by eapply Hm.
Qed.

Lemma touches_only_except {A} path (m : M A) :
  touches_only path m -> touches_only path (except_FileNotFoundError_exit m).
Proof.
  intros Hm σ σ' r. unfold except_FileNotFoundError_exit.
  destruct (m σ) as [[a|e|c] σ0] eqn:E.
  - intros [= _ <-]. by eapply Hm.
  - intros Hr. assert (σ' = σ0) as -> by (by destruct e; injection Hr).
    by eapply Hm.
  - intros [= _ <-]. by eapply Hm.
Qed.

Lemma touches_only_open_read path input : touches_only path (open_read input).
Proof.
  intros σ σ' r Hr p _. pose proof (open_read_store input σ) as Hs.
  rewrite Hr in Hs. simpl in Hs. by subst.
Qed.

Lemma touches_only_open_write path : touches_only path (open_write path).
Proof.
  intros σ σ' r. unfold open_write.
  destruct (σ !! path) as [[]|]; intros [= _ <-] p Hp;
    by rewrite ?lookup_insert_ne.
Qed.

Lemma touches_only_write path data : touches_only path (write path data).
Proof.
  intros σ σ' r. unfold write.
  destruct (σ !! path) as [[]|]; intros [= _ <-] p Hp;
    by rewrite ?lookup_insert_ne.
Qed.

Lemma touches_only_write_all path (chunks : list str) :
  touches_only path (write_all path chunks).
Proof.
  induction chunks as [|s chunks IH]; simpl.
  - apply touches_only_ret.
  - apply touches_only_bind; [apply touches_only_write|done].
Qed.

Create HintDb touches.

#[local] Hint Resolve touches_only_ret touches_only_lift touches_only_open_read
  touches_only_open_write touches_only_write touches_only_write_all : touches.

Section OtherPaths.

Context `{AnsCoder}.
Variable bo : endian.

Lemma compress_file_touches_only (input_path output_path : string) :
  touches_only output_path (compress_file bo input_path output_path).
Proof.
  unfold compress_file. apply touches_only_bind.
  - unfold read_fasta_sequence_and_header. apply touches_only_except.
    apply touches_only_bind.
    + unfold open_read_text.
      repeat (apply touches_only_bind; [auto with touches|intros ?]).
      auto with touches.
    + intros text. destruct (header_search (readlines text)). auto with touches.
  - intros items. destruct (collect items [] []) as [header sequence].
    case_decide;
      repeat (apply touches_only_bind; [auto with touches|intros ?]);
      auto with touches.
Qed.

Lemma decompress_file_touches_only (input_path output_path : string) :
  touches_only output_path (decompress_file bo input_path output_path).
Proof.
  unfold decompress_file. apply touches_only_bind.
  - unfold read_container. apply touches_only_except.
    repeat (apply touches_only_bind; [auto with touches|intros ?]).
    auto with touches.
  - intros [[seq_len header] words].
    case_decide;
      repeat (apply touches_only_bind; [auto with touches|intros ?]);
      auto with touches.
Qed.

(** X13.  Neither entry point ever changes a path other than its output
    path: however the call ends, every other file of the store, the input
    file included when it is a different path, is as it was. *)
Theorem only_output_path_changes (σ σ' : fs) (input_path output_path p : string)
    (r : outcome unit) :
  compress_file bo input_path output_path σ = (r, σ') \/
  decompress_file bo input_path output_path σ = (r, σ') ->
  p ≠ output_path ->
  σ' !! p = σ !! p.
Proof.
  intros [Hrun|Hrun] Hp.
  - by eapply compress_file_touches_only.
  - by eapply decompress_file_touches_only.
Qed.

End OtherPaths.

Lemma only_output_path_changes_witness :
  let σ : fs := {[ "in.fasta" := File (utf8_encode (str_of ">sample1
ACGTACGTAC
")) ]} in
  (compress_file (H := StackCoder.stack_coder) little "in.fasta" "out.bin" σ).2 !! "in.fasta"
  = σ !! "in.fasta".
Proof.
  intros σ.
  apply (only_output_path_changes (H := StackCoder.stack_coder) little σ _
           "in.fasta" "out.bin" "in.fasta"
           (compress_file (H := StackCoder.stack_coder) little "in.fasta" "out.bin" σ).1).
  - left. apply surjective_pairing.
  - discriminate.
Defined.

(** ** What the table counts *)

Lemma followers_cons_same v context (i : N) :
  followers ((context, i) :: v) context i = 1 + followers v context i.
Proof.
  unfold followers. rewrite filter_cons, decide_True by done. simpl length. lia.
Qed.

Lemma followers_cons_other v context context' (i k : N) :
  (context', i) ≠ (context, k) ->
  followers ((context', i) :: v) context k = followers v context k.
Proof.
  intros Hne. unfold followers. by rewrite filter_cons, decide_False.
Qed.

Lemma followers_unvisited v context (k : N) :
  context ∉ v.*1 -> followers v context k = 0.
Proof.
  induction v as [|[context' i] v IH]; [done|].
  rewrite fmap_cons. intros [Hne Hv]%not_elem_of_cons. simpl in Hne.
  rewrite followers_cons_other by congruence. by apply IH.
Qed.

Lemma bump_unvisited v context (row : list N) :
  context ∉ v.*1 -> Forall (fun c => c < UINT32_MOD) row -> bump v context row = row.
Proof.
  intros Hv Hrow. apply list_eq. intros k. unfold bump.
  rewrite list_lookup_imap. destruct (row !! k) as [c|] eqn:Hc; [|done]. simpl.
  rewrite followers_unvisited, N.add_0_r by done.
  rewrite Forall_lookup in Hrow. by rewrite N.mod_small by (by eapply Hrow).
Qed.

Lemma bump_step v context (row : list N) (i c : N) :
  row !! N.to_nat i = Some c ->
  bump v context (<[N.to_nat i := (c + 1) mod UINT32_MOD]> row)
  = bump ((context, i) :: v) context row.
Proof.
  intros Hc. apply list_eq. intros k. unfold bump.
  rewrite !list_lookup_imap. destruct (decide (k = N.to_nat i)) as [->|Hk].
  - rewrite list_lookup_insert_eq by (by eapply lookup_lt_Some).
    rewrite Hc. simpl. rewrite N2Nat.id, followers_cons_same. f_equal.
    rewrite N.Div0.add_mod_idemp_l. f_equal. lia.
  - rewrite list_lookup_insert_ne by done.
    destruct (row !! k) as [c'|]; [|done]. simpl.
    rewrite followers_cons_other; [done|]. intros [= Hi]. apply Hk.
    by rewrite Hi, Nat2N.id.
Qed.

Lemma bump_other v context context' (i : N) (row : list N) :
  context' ≠ context -> bump ((context', i) :: v) context row = bump v context row.
Proof.
  intros Hne. unfold bump. apply imap_ext. intros k c _. simpl.
  rewrite followers_cons_other; [done|congruence].
Qed.

(** The table after pass 1, from any table with 32-bit counts. *)
Lemma pass1_table (S : list ascii) : forall cm q acc cm' q' sts,
  (forall context row, model cm !! context = Some row ->
     Forall (fun c => c < UINT32_MOD) row) ->
  pass1 S cm q acc = Ok (cm', q', sts) ->
  forall context,
    model cm' !! context
    = if decide (context ∈ (visits S q).*1)
      then Some (bump (visits S q) context
                   (default (replicate (alphabet_size cm) 1) (model cm !! context)))
      else model cm !! context.
Proof.
  induction S as [|b S IH]; intros cm q acc cm' q' sts Hlt Hpass context.
  - injection Hpass as <- _ _. cbn [visits]. rewrite fmap_nil.
    case_decide as Hv; [by apply elem_of_nil in Hv|done].
  - cbn [pass1 visits] in *.
    pose proof (get_or_create_row cm (join q)) as Hrow0.
    pose proof (get_or_create_other cm (join q)) as Hother0.
    pose proof (get_or_create_idem cm (join q)) as Hidem.
    pose proof (get_or_create_alphabet cm (join q)) as Halpha.
    unfold get_probabilities in Hpass.
    destruct (_get_or_create_context cm (join q)) as [row0 cm1]. simpl in *.
    destruct (BASE_TO_INDEX b) as [i|]; [|done].
    destruct (update cm1 (join q) i) as [cm2|e|c] eqn:Hup; [|done|done].
    apply update_Ok in Hup as (c & Hc & Ha & Hsame & Hother).
    rewrite Hidem in Hc, Hsame. simpl in Hc, Hsame.
    assert (Hrow0lt : Forall (fun c => c < UINT32_MOD) row0).
    { rewrite Hrow0. destruct (model cm !! join q) as [row|] eqn:E; simpl.
      - by eapply Hlt.
      - by apply Forall_replicate. }
    assert (Hlt2 : forall context row, model cm2 !! context = Some row ->
              Forall (fun c => c < UINT32_MOD) row).
    { intros context' row. destruct (decide (join q = context')) as [<-|Hne].
      - rewrite Hsame. intros [= <-]. apply Forall_insert; [done|].
        by apply N.mod_upper_bound.
      - rewrite Hother, Hother0 by done. apply Hlt. }
    rewrite (IH _ _ _ _ _ _ Hlt2 Hpass context). rewrite fmap_cons. simpl.
    destruct (decide (join q = context)) as [<-|Hne].
    + rewrite (decide_True (P := join q ∈ join q :: _)) by apply list_elem_of_here.
      rewrite Hsame. simpl. rewrite <- Hrow0.
      case_decide as Hv.
      * by rewrite (bump_step _ _ _ _ c).
      * rewrite <- (bump_step _ _ _ _ c) by done. f_equal. symmetry. apply bump_unvisited; [done|].
        apply Forall_insert; [done|]. by apply N.mod_upper_bound.
    + rewrite Hother, Hother0 by done. rewrite Ha, Halpha.
      destruct (decide (context ∈ (visits S (deque_append CONTEXT_LENGTH q b)).*1)) as [Hv|Hv].
      * rewrite decide_True by (by apply list_elem_of_further).
        by rewrite bump_other.
      * rewrite decide_False; [done|].
        intros [?|?]%elem_of_cons; done.
Qed.

(** X14.  After pass 1 the frequency table holds a row exactly for the
    contexts that occurred, and the count of symbol [i] in the row of a
    context is 1 plus the number of times [i] followed that context in the
    sequence (modulo [2^32], the width of a cell). *)
Theorem table_counts_followers (S : list ascii) (context : str)
    (cm' : ContextModel) (q' : list ascii) (sts : list (N * list float)) :
  pass1 S (ContextModel_init CONTEXT_LENGTH (length DNA_ALPHABET))
        (replicate CONTEXT_LENGTH "N"%char) [] = Ok (cm', q', sts) ->
  let v := visits S (replicate CONTEXT_LENGTH "N"%char) in
  model cm' !! context
  = if decide (context ∈ v.*1)
    then Some ((fun i => (1 + followers v context i) mod UINT32_MOD) <$> [0; 1; 2; 3])
    else None.
Proof.
  intros Hpass v.
  assert (Hlt : forall context row,
    model (ContextModel_init CONTEXT_LENGTH (length DNA_ALPHABET)) !! context = Some row ->
    Forall (fun c => c < UINT32_MOD) row).
  { intros context0 row Hrow. simpl in Hrow. by rewrite lookup_empty in Hrow. }
  rewrite (pass1_table _ _ _ _ _ _ _ Hlt Hpass context). fold v.
  cbn [model alphabet_size ContextModel_init]. rewrite lookup_empty.
  case_decide; [|done]. reflexivity.
Qed.

Lemma table_counts_followers_witness :
  exists cm' q' sts,
    pass1 (str_of "AAAAAAAAAAAAC") (ContextModel_init CONTEXT_LENGTH (length DNA_ALPHABET))
          (replicate CONTEXT_LENGTH "N"%char) [] = Ok (cm', q', sts)
    /\ model cm' !! str_of "AAAAAAAAAA" = Some [3; 2; 1; 1]
    /\ model cm' !! str_of "CCCCCCCCCC" = None.
Proof.
  destruct (pass1 (str_of "AAAAAAAAAAAAC")
              (ContextModel_init CONTEXT_LENGTH (length DNA_ALPHABET))
              (replicate CONTEXT_LENGTH "N"%char) []) as [[[cm' q'] sts]|e|c] eqn:Hpass;
    [|vm_compute in Hpass; discriminate Hpass..].
  exists cm', q', sts. split; [reflexivity|].
  rewrite !(table_counts_followers (str_of "AAAAAAAAAAAAC") _ cm' q' sts Hpass).
  split; vm_compute; reflexivity.
Defined.

(** ** What the coder is given *)

Lemma pass1_acc (S : list ascii) : forall cm q acc cm' q' sts,
  pass1 S cm q acc = Ok (cm', q', sts) ->
  exists more, sts = acc ++ more /\ length more = length S.
Proof.
  induction S as [|b S IH]; intros cm q acc cm' q' sts Hpass.
  - injection Hpass as _ _ <-. exists []. by rewrite app_nil_r.
  - cbn [pass1] in Hpass.
    destruct (get_probabilities cm (join q)) as [p cm1].
    destruct (BASE_TO_INDEX b) as [i|]; [|done].
    destruct (update cm1 (join q) i) as [cm2|e|c]; [|done|done].
    apply IH in Hpass as (more & -> & Hlen).
    exists ((i, p) :: more). rewrite <- app_assoc. split; [done|]. simpl. by rewrite Hlen.
Qed.

(** X15.  The probabilities handed to the coder for the symbol at position
    [t] are those of the table and the window as they stand after the
    first [t] symbols: they depend neither on the symbol at [t] nor on any
    later one, and the states recorded for the first [t] symbols are those
    of pass 1 run on these symbols alone. *)
Theorem probabilities_depend_on_past (S : list ascii) (t : nat) (b : ascii)
    (cm cm' : ContextModel) (q q' : list ascii) (sts : list (N * list float)) :
  pass1 S cm q [] = Ok (cm', q', sts) ->
  S !! t = Some b ->
  exists cm_t q_t i,
    pass1 (take t S) cm q [] = Ok (cm_t, q_t, take t sts) /\
    BASE_TO_INDEX b = Some i /\
    sts !! t = Some (i, (get_probabilities cm_t (join q_t)).1).
Proof.
  intros Hpass Hb.
  rewrite <- (take_drop_middle S t b Hb), pass1_app in Hpass.
  destruct (pass1 (take t S) cm q []) as [[[cm_t q_t] sts_t]|e|c] eqn:Ht; [|done|done].
  apply pass1_acc in Ht as Hacc. destruct Hacc as (more & -> & Hlen). simpl in *.
  rewrite length_take_le in Hlen by (apply lookup_lt_Some in Hb; lia).
  cbn [pass1] in Hpass.
  destruct (get_probabilities cm_t (join q_t)) as [p cm1] eqn:Hp.
  destruct (BASE_TO_INDEX b) as [i|]; [|done].
  destruct (update cm1 (join q_t) i) as [cm2|e|c]; [|done|done].
  apply pass1_acc in Hpass as (rest & -> & _).
  exists cm_t, q_t, i. split_and!.
  - rewrite <- app_assoc. by rewrite take_app_length' by done.
  - done.
  - rewrite Hp, <- app_assoc, lookup_app_r by lia.
    by replace (t - length more)%nat with 0%nat by lia.
Qed.

Lemma probabilities_depend_on_past_witness :
  exists cm' q' sts,
    pass1 (str_of "ACGTAC") (ContextModel_init CONTEXT_LENGTH (length DNA_ALPHABET))
          (replicate CONTEXT_LENGTH "N"%char) [] = Ok (cm', q', sts) /\
    exists cm_t q_t i,
      pass1 (take 2 (str_of "ACGTAC"))
            (ContextModel_init CONTEXT_LENGTH (length DNA_ALPHABET))
            (replicate CONTEXT_LENGTH "N"%char) [] = Ok (cm_t, q_t, take 2 sts) /\
      BASE_TO_INDEX "G" = Some i /\
      sts !! 2%nat = Some (i, (get_probabilities cm_t (join q_t)).1).
Proof.
  destruct (pass1 (str_of "ACGTAC")
              (ContextModel_init CONTEXT_LENGTH (length DNA_ALPHABET))
              (replicate CONTEXT_LENGTH "N"%char) []) as [[[cm' q'] sts]|e|c] eqn:Hpass;
    [|vm_compute in Hpass; discriminate Hpass..].
  exists cm', q', sts. split; [reflexivity|].
  apply (probabilities_depend_on_past (str_of "ACGTAC") 2 "G" _ cm' _ q' sts Hpass).
  reflexivity.
Defined.

(** ** What the container depends on *)

Section Layout.

Context `{AnsCoder}.
Variable bo : endian.

Lemma compress_file_empty (σ : fs) (input_path output_path : string)
    (items : list item) (header : str) :
  read_fasta_sequence_and_header input_path σ = (Ok items, σ) ->
  collect items [] [] = (header, []) ->
  compress_file bo input_path output_path σ
  = (open_write output_path ;;; write output_path (replicate 8 Byte.x00)) σ.
Proof.
  intros Hread Hcollect. unfold compress_file.
  step_ok ltac:(exact Hread). by rewrite Hcollect.
Qed.

(** X16.  The container is a function of the header and the bases read,
    not of the layout of the input: two inputs on which the generator
    yields the same items (the same bases wrapped differently, in another
    letter case, or mixed with other characters) give, on stores that
    agree on the output path, the same outcome and the same bytes there. *)
Theorem container_ignores_layout (σ1 σ2 : fs) (input1 input2 output_path : string)
    (items : list item) :
  read_fasta_sequence_and_header input1 σ1 = (Ok items, σ1) ->
  read_fasta_sequence_and_header input2 σ2 = (Ok items, σ2) ->
  σ1 !! output_path = σ2 !! output_path ->
  (compress_file bo input1 output_path σ1).1 = (compress_file bo input2 output_path σ2).1 /\
  (compress_file bo input1 output_path σ1).2 !! output_path
  = (compress_file bo input2 output_path σ2).2 !! output_path.
Proof.
  intros Hread1 Hread2 Hout.
  destruct (collect items [] []) as [header sequence] eqn:Hcollect.
  destruct (decide (sequence = [])) as [->|Hne].
  - rewrite (compress_file_empty σ1 input1 output_path items header) by done.
    rewrite (compress_file_empty σ2 input2 output_path items header) by done.
    unfold bind, open_write, write. rewrite Hout.
    destruct (σ2 !! output_path) as [[old|]|] eqn:Hp; simpl;
      rewrite ?lookup_insert_eq; simpl; rewrite ?insert_insert_eq, ?lookup_insert_eq;
      by rewrite ?Hp, ?Hout.
  - rewrite (compress_file_nonempty bo σ1 input1 output_path items header sequence)
      by done.
    rewrite (compress_file_nonempty bo σ2 input2 output_path items header sequence)
      by done.
    destruct (pass1 sequence _ _ _) as [st|e|c]; [|done|done].
    destruct (pass2 st.2) as [words|e|c]; [|done|done].
    rewrite Hout.
    destruct (σ2 !! output_path) as [[old|]|] eqn:Hp; [|simpl; split; [done|congruence]|];
      (destruct (to_bytes 8 big _) as [b8|e|c];
       [destruct (to_bytes 2 big _) as [b2|e|c]|..]); simpl;
      by rewrite !lookup_insert_eq.
Qed.

End Layout.

Lemma container_ignores_layout_witness :
  let σ : fs := {[ "wrapped.fasta" := File (utf8_encode (str_of ">seq1 sample
ACGTAC
GTTTGA
"));
                   "flat.fasta" := File (utf8_encode (str_of ">seq1 sample   
acgtnnac gtttga")) ]} in
  (compress_file (H := StackCoder.stack_coder) little "wrapped.fasta" "out.bin" σ).1
  = (compress_file (H := StackCoder.stack_coder) little "flat.fasta" "out.bin" σ).1 /\
  (compress_file (H := StackCoder.stack_coder) little "wrapped.fasta" "out.bin" σ).2
    !! "out.bin"
  = (compress_file (H := StackCoder.stack_coder) little "flat.fasta" "out.bin" σ).2
    !! "out.bin".
Proof.
  intros σ.
  apply (container_ignores_layout (H := StackCoder.stack_coder) little σ σ
           "wrapped.fasta" "flat.fasta" "out.bin"
           (HEADER (str_of ">seq1 sample") :: (BASE <$> str_of "ACGTACGTTTGA"))).
  - vm_compute. reflexivity.
  - vm_compute. reflexivity.
  - reflexivity.
Defined.

(** ** The integrity check on a restored file *)

Lemma universal_newlines_id (s : str) : CR ∉ s -> universal_newlines s = s.
Proof.
  induction s as [|c s IH]; [done|].
  intros [Hc Hs]%not_elem_of_cons. cbn [universal_newlines].
  rewrite decide_False by done. by rewrite IH.
Qed.

Lemma Forall_lines (P : ascii -> Prop) (ls : list str) :
  P LF -> Forall P (concat ls) -> Forall P (concat ((fun l => l ++ [LF]) <$> ls)).
Proof.
  intros HLF. induction ls as [|l ls IH]; [done|].
  simpl. intros [Hl Hls]%Forall_app.
  rewrite <- app_assoc. apply Forall_app. split; [done|].
  apply Forall_cons. split; [done|by apply IH].
Qed.

Lemma filter_lines (ls : list str) :
  Forall (fun c => c ≠ LF) (concat ls) ->
  filter (fun c => c ≠ LF) (concat ((fun l => l ++ [LF]) <$> ls)) = concat ls.
Proof.
  induction ls as [|l ls IH]; [done|].
  rewrite fmap_cons, !concat_cons. intros [Hl Hls]%Forall_app.
  rewrite !filter_app, IH by done. f_equal.
  rewrite filter_cons, decide_False, filter_nil, app_nil_r by (by intros ?).
  clear -Hl. induction Hl as [|c l Hc _ IHl]; [done|].
  by rewrite filter_cons, decide_True, IHl.
Qed.

Lemma base_not_LF (c : ascii) : c ∈ DNA_ALPHABET -> c ≠ LF.
Proof. by intros [-> | [-> | [-> | ->]]]%base_cases. Qed.

Lemma base_not_CR (c : ascii) : c ∈ DNA_ALPHABET -> c ≠ CR.
Proof. by intros [-> | [-> | [-> | ->]]]%base_cases. Qed.

Lemma payload_of_rendered (σ : fs) (path : string) (header S : str) :
  σ !! path = Some (File (utf8_encode (concat (render header S)))) ->
  startswith_gt header = true ->
  LF ∉ header -> CR ∉ header ->
  Forall (fun c => c ∈ DNA_ALPHABET) S ->
  get_dna_payload path σ = (Ok (Some S), σ).
Proof.
  intros Hp Hgt Hlf Hcr Hbases.
  set (body := concat ((fun l => l ++ [LF]) <$> wrapped_lines S)).
  assert (Hbody : Forall base_or_LF body).
  { apply Forall_lines; [by left|]. rewrite wrapped_lines_concat.
    eapply Forall_impl; [exact Hbases|]. intros c Hc. by right. }
  assert (Hfilter : filter (fun c => c ≠ LF) body = S).
  { unfold body. rewrite filter_lines; [apply wrapped_lines_concat|].
    rewrite wrapped_lines_concat.
    eapply Forall_impl; [exact Hbases|]. apply base_not_LF. }
  assert (Htext : open_read_text path σ = (Ok (header ++ LF :: body), σ)).
  { unfold open_read_text, bind at 1, open_read. rewrite Hp. cbv beta iota.
    unfold bind, lift. rewrite utf8_decode_encode. cbn [of_option]. unfold ret.
    rewrite render_concat. fold body. f_equal. f_equal.
    apply universal_newlines_id. intros [Hin|Hin]%elem_of_app; [done|].
    apply elem_of_cons in Hin as [Hin|Hin]; [done|].
    rewrite Forall_forall in Hbody. destruct (Hbody _ Hin) as [Hc|Hc]; [done|].
    by apply base_not_CR in Hc. }
  unfold get_dna_payload. rewrite Htext, readlines_first_line by done.
  rewrite bind_cons.
  assert (Hgt' : startswith_gt (header ++ [LF]) = true) by (destruct header; done).
  rewrite Hgt'. cbn [app]. do 3 f_equal.
  assert (Hinj : Inj (=) (=) BASE) by (by intros ?? [=]).
  apply (inj (fmap BASE)).
  rewrite <- sequence_lines_payload, sequence_lines_bases, readlines_concat; [by rewrite Hfilter|].
  rewrite <- (readlines_concat body) in Hbody. by apply Forall_concat in Hbody.
Qed.

Section Integrity.

Context `{AnsCoder}.
Variable bo : endian.

(** X17.  On the file written by a decompression of a container of length
    [n > 0] whose header starts with [>] and holds no line break,
    [get_dna_payload] returns the decoded sequence itself: the wrapping
    in lines of 70 adds nothing to the payload and the header line is
    left out of it. *)
Theorem payload_of_restored_file (σ σ' : fs) (input_path output_path : string)
    (seq_len : N) (header : str) (compressed_data : list N) :
  read_container bo input_path σ = (Ok (seq_len, header, compressed_data), σ) ->
  seq_len ≠ 0 ->
  startswith_gt header = true ->
  LF ∉ header -> CR ∉ header ->
  decompress_file bo input_path output_path σ = (Ok (), σ') ->
  exists restored : str,
    σ' !! output_path = Some (File (utf8_encode (concat (render header restored)))) /\
    length restored = N.to_nat seq_len /\
    get_dna_payload output_path σ' = (Ok (Some restored), σ').
Proof.
  intros Hread Hlen Hgt Hlf Hcr Hrun.
  rewrite (decompress_file_nonempty _ _ _ _ _ _ _ Hread Hlen) in Hrun.
  destruct (coder_from_compressed compressed_data) as [decoder|]; [|done].
  destruct (decode_loop _ _ decoder _ []) as [[[[cm' decoder'] q'] restored]|e|c] eqn:Hloop;
    [|done|done].
  apply decode_loop_pass1 in Hloop as (xs & Hxs & Hn & Hpass). simpl in Hxs. subst xs.
  destruct (Hpass []) as (st' & Hst'). apply pass1_Ok_alphabet in Hst'.
  cbn [snd] in Hrun.
  assert (Hout : σ' !! output_path
                 = Some (File (utf8_encode (concat (render header restored))))).
  { destruct (σ !! output_path) as [[]|]; [|done|];
      injection Hrun as <-; by rewrite lookup_insert_eq. }
  exists restored. split_and!; [done|done|].
  by apply (payload_of_rendered σ' output_path header restored).
Qed.

End Integrity.

Lemma payload_of_restored_file_witness :
  let σ : fs := {[ "any.bin" := File
       ([Byte.x00; Byte.x00; Byte.x00; Byte.x00; Byte.x00; Byte.x00; Byte.x00; Byte.x03;
         Byte.x00; Byte.x02; Byte.x3e; Byte.x41;
         Byte.x03; Byte.x00; Byte.x00; Byte.x00]) ]} in
  let σ' := (decompress_file (H := StackCoder.stack_coder) little "any.bin" "restored.fasta" σ).2 in
  exists restored : str,
    σ' !! "restored.fasta"
      = Some (File (utf8_encode (concat (render (str_of ">A") restored)))) /\
    length restored = N.to_nat 3 /\
    get_dna_payload "restored.fasta" σ' = (Ok (Some restored), σ').
Proof.
  intros σ σ'.
  apply (payload_of_restored_file (H := StackCoder.stack_coder) little σ σ'
           "any.bin" "restored.fasta" 3 (str_of ">A") [3]).
  - vm_compute. reflexivity.
  - discriminate.
  - reflexivity.
  - apply (bool_decide_unpack _). vm_compute. exact I.
  - apply (bool_decide_unpack _). vm_compute. exact I.
  - vm_compute. reflexivity.
Defined.
